(** * pi_assistant: a model of the Home Assistant integration and its properties

    The development embeds three modules of the integration:
    - [media_player.py]   (module [MediaPlayer]): the entity that talks to the
      device over HTTP;
    - [voice_assistant.py] (module [VoiceAssistant]): the pipeline driver that
      translates stage events and signals termination;
    - [config_flow.py]    (module [ConfigFlow]): the two configuration steps.

    Python values that cross the boundaries (JSON bodies, event payloads) are
    modelled by [pyval]; exceptions by [exn]; statements that can raise live in
    a small state-and-exception monad. *)

From Stdlib Require Import String Ascii List Bool NArith ZArith QArith Lia.
From stdpp Require Import gmap strings list fin_maps.
Import ListNotations.
Local Open Scope list_scope.
Local Open Scope string_scope.

(** ** Python strings

    A [str] is modelled by [string] (its UTF-8 bytes).  Every byte of a
    non-ASCII character is above 127, hence outside [[a-zA-Z0-9]], so the
    character class of [generate_entity_id] classifies bytes exactly as it
    classifies code points. *)

Module PyStr.

(** Membership in the class [[a-zA-Z0-9]]. *)
Definition is_alnum (c : ascii) : bool :=
  let n := N_of_ascii c in
  (((48 <=? n) && (n <=? 57)) || ((65 <=? n) && (n <=? 90))
   || ((97 <=? n) && (n <=? 122)))%N.

(** [str.lower] on one character.  It is only ever applied after the
    substitution, where all characters are ASCII letters, digits or ["_"]. *)
Definition lower_char (c : ascii) : ascii :=
  let n := N_of_ascii c in
  if ((65 <=? n) && (n <=? 90))%N then ascii_of_N (n + 32) else c.

Fixpoint lower (s : string) : string :=
  match s with
  | EmptyString => EmptyString
  | String c r => String (lower_char c) (lower r)
  end.

(** [re.sub(r"[^a-zA-Z0-9]+", repl, s)]: a left-to-right scan in which each
    maximal run of characters outside the class is replaced by one [repl].
    [in_run] tells that the previous character belonged to such a run, whose
    replacement has been written already. *)
Fixpoint re_sub_non_alnum (repl : string) (in_run : bool) (s : string) : string :=
  match s with
  | EmptyString => EmptyString
  | String c r =>
      if is_alnum c then String c (re_sub_non_alnum repl false r)
      else if in_run then re_sub_non_alnum repl true r
      else repl ++ re_sub_non_alnum repl true r
  end.




(** Whether a scan that starts in the state [in_run] is inside a run of
    characters outside the class when it reaches the end of [s]. *)
Fixpoint ends_in_run (in_run : bool) (s : string) : bool :=
  match s with
  | EmptyString => in_run
  | String c r => ends_in_run (negb (is_alnum c)) r
  end.

(** The separator ["_"]. *)
Definition is_sep (c : ascii) : bool := (N_of_ascii c =? 95)%N.

(** No separator is followed at once by another one. *)
Fixpoint no_double_sep (s : string) : bool :=
  match s with
  | EmptyString => true
  | String c r =>
      match r with
      | String c' _ => negb (is_sep c && is_sep c')
      | EmptyString => true
      end && no_double_sep r
  end.

End PyStr.

(** ** Python values, exceptions and statements *)

Module Py.

(** JSON-like values: what event payloads, request bodies and decoded
    responses are made of.  A [float] is carried around, never computed
    with, and is represented by the rational it denotes. *)
#[warnings="-register-all"]
Inductive pyval : Type :=
| VNone
| VBool (b : bool)
| VInt (z : Z)
| VFloat (q : Q)
| VStr (s : string)
| VDict (items : list (string * pyval)).

(** Truth value of an object, as tested by [if v:], [not v] and [v or w]. *)
Definition truthy (v : pyval) : bool :=
  match v with
  | VNone => false
  | VBool b => b
  | VInt z => negb (z =? 0)%Z
  | VFloat q => negb (Qeq_bool q 0)
  | VStr s => negb (String.eqb s "")
  | VDict items => match items with [] => false | _ :: _ => true end
  end.

(** [v or w]. *)
Definition py_or (v w : pyval) : pyval := if truthy v then v else w.

(** Exception classes that occur in the modelled code.  All of them derive
    from [Exception]; [OtherError] stands for any further such class (for
    instance the HTTP library's connection failures), named by [cls]. *)
Inductive exn : Type :=
| AssertionError
| KeyError (key : string)
| TypeError
| AttributeError (name : string)
| TimeoutError
| PipelineNotFound
| WakeWordDetectionAborted
| WakeWordDetectionError (code message : string)
| AbortFlow (reason : string)
| OtherError (cls : string).

(** The class test of [except TimeoutError:]. *)
Definition is_TimeoutError (x : exn) : bool :=
  match x with TimeoutError => true | _ => false end.

Inductive res (A : Type) : Type :=
| Ok (a : A)
| Raise (x : exn).
Arguments Ok {A} a.
Arguments Raise {A} x.

Fixpoint dict_get (k : string) (items : list (string * pyval)) : option pyval :=
  match items with
  | [] => None
  | (k', v) :: rest => if String.eqb k k' then Some v else dict_get k rest
  end.

(** [v[k]] for a string key [k]: only a [dict] can be subscripted so. *)
Definition subscript (v : pyval) (k : string) : res pyval :=
  match v with
  | VDict items =>
      match dict_get k items with
      | Some x => Ok x
      | None => Raise (KeyError k)
      end
  | _ => Raise TypeError
  end.

(** Statements over an object of type [S]: they update the object and either
    complete with a value or raise.  Updates made before a [Raise] stay. *)
Definition M (S A : Type) : Type := S -> S * res A.

Definition ret {S A} (a : A) : M S A := fun s => (s, Ok a).
Definition raise {S A} (x : exn) : M S A := fun s => (s, Raise x).
Definition bind {S A B} (c : M S A) (k : A -> M S B) : M S B :=
  fun s => match c s with
           | (s', Ok a) => k a s'
           | (s', Raise x) => (s', Raise x)
           end.
Definition lift {S A} (r : res A) : M S A := fun s => (s, r).
Definition modify {S} (f : S -> S) : M S unit := fun s => (f s, Ok tt).
Definition gets {S A} (f : S -> A) : M S A := fun s => (s, Ok (f s)).

(** [try: body  except <handled classes>: handler].  [handler x] is [None]
    for a class that no clause catches. *)
Definition try_except {S A} (body : M S A) (handler : exn -> option (M S A))
  : M S A :=
  fun s => match body s with
           | (s', Ok a) => (s', Ok a)
           | (s', Raise x) =>
               match handler x with
               | Some h => h s'
               | None => (s', Raise x)
               end
           end.

Notation "'do' x <- c ; k" := (bind c (fun x => k))
  (at level 10, x name, c at level 100, k at level 200).
Notation "'run' c ; k" := (bind c (fun _ => k))
  (at level 10, c at level 100, k at level 200).

End Py.

(** ** [media_player.py] *)

Module EntityId.
Import PyStr.

(** [PiAssistantMediaPlayer.generate_entity_id]:
    [re.sub(r"[^a-zA-Z0-9]+", "_", line).lower()]. *)
Definition generate_entity_id (line : string) : string :=
  lower (re_sub_non_alnum "_" false line).

End EntityId.

Module MediaPlayer.
Import Py EntityId.

(** What leaves the process through the HTTP library: the method, the URL,
    the JSON body of a POST and the [timeout] argument. *)
Inductive http_request : Type :=
| HttpGet (url : string) (timeout : Z)
| HttpPost (url : string) (json : pyval) (timeout : Z).

(** The entity object.  [attrs] is the instance dictionary for the attributes
    the module assigns ([state], [_attr_volume_level], ...); [sent] lists the
    requests issued so far, oldest first; [logged] the error log. *)
Record PiAssistantMediaPlayer : Type := {
  hostname : string;
  attrs : gmap string pyval;
  sent : list http_request;
  logged : list string
}.

Definition setattr (name : string) (v : pyval) : M PiAssistantMediaPlayer unit :=
  modify (fun self =>
    {| hostname := hostname self;
       attrs := <[name := v]> (attrs self);
       sent := sent self;
       logged := logged self |}).

Definition issue (r : http_request) : M PiAssistantMediaPlayer unit :=
  modify (fun self =>
    {| hostname := hostname self;
       attrs := attrs self;
       sent := sent self ++ [r];
       logged := logged self |}).

Definition log_error (msg : string) : M PiAssistantMediaPlayer unit :=
  modify (fun self =>
    {| hostname := hostname self;
       attrs := attrs self;
       sent := sent self;
       logged := logged self ++ [msg] |}).

(** [__init__], for the attributes that are computed in this module. *)
Definition init (hostname : string) : PiAssistantMediaPlayer :=
  let name := hostname ++ " Media Player" in
  {| hostname := hostname;
     attrs := <["_attr_unique_id" := VStr (generate_entity_id name)]>
              (<["_attr_name" := VStr name]> ∅);
     sent := [];
     logged := [] |}.

(** [device_id]. *)
Definition device_id (self : PiAssistantMediaPlayer) : string :=
  generate_entity_id (hostname self).

(** [self.<attr> = state[key]]. *)
Definition copy_field (state : pyval) (attr key : string)
  : M PiAssistantMediaPlayer unit :=
  do v <- lift (subscript state key); setattr attr v.

(** [update_states].  [response] is what [requests.get(...)] followed by
    [.json()] yields for this call: the decoded body, or the exception that
    one of the two raises. *)
Definition update_states (response : res pyval) : M PiAssistantMediaPlayer unit :=
  try_except
    (do host <- gets hostname;
     run issue (HttpGet ("http://" ++ host ++ "/api/state") 1);
     do state <- lift response;
     run copy_field state "state" "state";
     run copy_field state "_attr_is_volume_muted" "is_volume_muted";
     run copy_field state "_attr_media_duration" "media_duration";
     run copy_field state "_attr_media_content_type" "media_content_type";
     run copy_field state "_attr_media_position" "media_position";
     run copy_field state "_attr_media_position_updated_at"
                          "media_position_updated_at";
     run copy_field state "_attr_repeat" "repeat";
     run copy_field state "_attr_shuffle" "shuffle";
     run copy_field state "_attr_source" "source";
     run copy_field state "_attr_volume_level" "volume_level";
     copy_field state "_attr_volume_step" "volume_step")
    (fun x => if is_TimeoutError x
              then Some (setattr "state" (VStr "unavailable"))
              else None).

(** [async_update]: the executor job is [update_states]; [except Exception]
    catches every class of [exn] and logs. *)
Definition async_update (response : res pyval) : M PiAssistantMediaPlayer unit :=
  try_except (update_states response)
             (fun _ => Some (log_error "ERROR async_update()")).

(** [send_command].  [response] is what [requests.post(...).json()] yields.
    The value returned is [result["success"]], or [False] after a
    [TimeoutError]. *)
Definition send_command (command : string) (args : pyval) (response : res pyval)
  : M PiAssistantMediaPlayer pyval :=
  try_except
    (do host <- gets hostname;
     run issue (HttpPost ("http://" ++ host ++ "/api/command/" ++ command) args 1);
     do result <- lift response;
     lift (subscript result "success"))
    (fun x => if is_TimeoutError x
              then Some (run setattr "state" (VStr "unavailable");
                         ret (VBool false))
              else None).

(** [async_send_command]: returns [None] after logging an exception. *)
Definition async_send_command (command : string) (args : pyval)
    (response : res pyval) : M PiAssistantMediaPlayer pyval :=
  try_except (send_command command args response)
             (fun _ => Some (run log_error "ERROR async_send_command()";
                             ret VNone)).

(** The control methods call [send_command] and drop its result. *)
Definition set_volume_level (volume : pyval) (response : res pyval)
  : M PiAssistantMediaPlayer unit :=
  run send_command "set_volume" (VDict [("volume", volume)]) response; ret tt.

Definition media_pause (response : res pyval) : M PiAssistantMediaPlayer unit :=
  run send_command "media_pause" (VDict []) response; ret tt.

Definition media_play (response : res pyval) : M PiAssistantMediaPlayer unit :=
  run send_command "media_play" (VDict []) response; ret tt.

Definition media_stop (response : res pyval) : M PiAssistantMediaPlayer unit :=
  run send_command "media_stop" (VDict []) response; ret tt.

Definition mute_volume (mute : bool) (response : res pyval)
  : M PiAssistantMediaPlayer unit :=
  run send_command "volume_mute" (VDict []) response; ret tt.

(** The volume is inside the range the docstring of [set_volume_level]
    names, 0..1. *)
Definition volume_in_range (v : pyval) : bool :=
  match v with
  | VFloat q => Qle_bool 0 q && Qle_bool q 1
  | VInt z => (0 <=? z)%Z && (z <=? 1)%Z
  | _ => false
  end.

(** The volumes carried by the [set_volume] commands among [reqs]. *)
Fixpoint volumes_sent (reqs : list http_request) : list pyval :=
  match reqs with
  | [] => []
  | HttpPost _ (VDict [("volume", v)]) _ :: rest => v :: volumes_sent rest
  | _ :: rest => volumes_sent rest
  end.

(** The attributes that [update_states] assigns, each with the key of the
    state object it is read from, in the order of the assignments. *)
Definition state_fields : list (string * string) :=
  [("state", "state");
   ("_attr_is_volume_muted", "is_volume_muted");
   ("_attr_media_duration", "media_duration");
   ("_attr_media_content_type", "media_content_type");
   ("_attr_media_position", "media_position");
   ("_attr_media_position_updated_at", "media_position_updated_at");
   ("_attr_repeat", "repeat");
   ("_attr_shuffle", "shuffle");
   ("_attr_source", "source");
   ("_attr_volume_level", "volume_level");
   ("_attr_volume_step", "volume_step")].

(** What the HTTP library raises when a request runs into its [timeout]:
    [requests.exceptions.ConnectTimeout] or [requests.exceptions.ReadTimeout].
    Both derive from the library's [RequestException]; neither is a subclass
    of the built-in [TimeoutError], so [except TimeoutError] lets them pass. *)
Definition connect_timeout : exn := OtherError "requests.exceptions.ConnectTimeout".
Definition read_timeout : exn := OtherError "requests.exceptions.ReadTimeout".

(** A state object as the device serves it while idle. *)
Definition idle_state_body : list (string * pyval) :=
  [("state", VStr "idle");
   ("is_volume_muted", VBool false);
   ("media_duration", VNone);
   ("media_content_type", VNone);
   ("media_position", VNone);
   ("media_position_updated_at", VNone);
   ("repeat", VStr "off");
   ("shuffle", VBool false);
   ("source", VNone);
   ("volume_level", VFloat (1 # 2));
   ("volume_step", VFloat (1 # 10))].

Section WithMediaSource.

(** The framework's media-source helpers, which lie outside this repository:
    [media_source.is_media_source_id], [media_source.async_resolve_media]
    (the [url] of what it resolves to, or the exception it raises) and
    [async_process_play_media_url]. *)
Variable is_media_source_id : string -> bool.
Variable async_resolve_media : string -> res string.
Variable async_process_play_media_url : string -> string.

(** [async_play_media]. *)
Definition async_play_media (media_type : string) (media_id : string)
    (response : res pyval) : M PiAssistantMediaPlayer unit :=
  do media_id <-
    (if is_media_source_id media_id
     then lift (async_resolve_media media_id)
     else ret media_id);
  let media_id := async_process_play_media_url media_id in
  run async_send_command "play_media" (VDict [("url", VStr media_id)]) response;
  ret tt.

End WithMediaSource.

End MediaPlayer.

(** ** [voice_assistant.py] *)

Module VoiceAssistant.
Import Py.

(** The members of [PipelineEventType] that [_event_callback] names; every
    other member of the framework's enumeration is an [OTHER_EVENT]. *)
Inductive PipelineEventType : Type :=
| WAKE_WORD_END
| STT_START
| STT_END
| INTENT_END
| TTS_START
| TTS_END
| ERROR
| OTHER_EVENT (name : string).

(** A stage event: [event.type] and [event.data] (a [dict] or [None]). *)
Record PipelineEvent : Type := { type : PipelineEventType; data : pyval }.

(** What the pipeline object does to the outside, in program order: the two
    callbacks given to the constructor, the call into the media-player
    entity, the completion signal being set, and the log. *)
Inductive action : Type :=
| HandleEvent (event_type : PipelineEventType) (data_to_send : pyval)
| HandleFinished
| EntityPlayMedia (media_type : string) (media_id : pyval)
| TtsDoneSet
| Log (level message : string).

(** The object: the two class attributes, the flag of the [asyncio.Event]
    [_tts_done], and the actions performed so far, oldest first. *)
Record VoiceAssistantPipeline : Type := {
  started : bool;
  stop_requested : bool;
  _tts_done : bool;
  trace : list action
}.

(** [__init__]: a fresh object; [started] and [stop_requested] are the
    class attributes, both [False]. *)
Definition init : VoiceAssistantPipeline :=
  {| started := false; stop_requested := false; _tts_done := false; trace := [] |}.

(** The read-only property [is_running]. *)
Definition is_running (self : VoiceAssistantPipeline) : bool :=
  started self && negb (stop_requested self).

Definition perform (a : action) : M VoiceAssistantPipeline unit :=
  modify (fun self =>
    {| started := started self;
       stop_requested := stop_requested self;
       _tts_done := _tts_done self;
       trace := trace self ++ [a] |}).

(** [self._tts_done.set()]. *)
Definition tts_done_set : M VoiceAssistantPipeline unit :=
  modify (fun self =>
    {| started := started self;
       stop_requested := stop_requested self;
       _tts_done := true;
       trace := trace self ++ [TtsDoneSet] |}).

Definition handle_event (event_type : PipelineEventType) (data_to_send : pyval)
  : M VoiceAssistantPipeline unit :=
  perform (HandleEvent event_type data_to_send).

Definition handle_finished : M VoiceAssistantPipeline unit :=
  perform HandleFinished.

Definition log (level message : string) : M VoiceAssistantPipeline unit :=
  perform (Log level message).

(** [assert v is not None]. *)
Definition assert_not_none (v : pyval) : M VoiceAssistantPipeline unit :=
  match v with
  | VNone => raise AssertionError
  | _ => ret tt
  end.

(** The staged pipeline, seen from [run_pipeline]: it calls the event
    callback some number of times and then returns or raises.  An exception
    raised by the callback is not caught by a callee and leaves the call. *)
Inductive pipeline : Type :=
| Return
| Throw (x : exn)
| Emit (event : PipelineEvent) (rest : pipeline).

(** How a call of [run_pipeline] stands once nothing more can happen without
    outside help: it returned, it raised [x] to its caller, or it is
    suspended in [await self._tts_done.wait()] with the signal not set. *)
Inductive outcome : Type :=
| Returned
| Raised (x : exn)
| Blocked.

Section WithEntity.

(** [self.entity.play_media]: the entity class of [media_player.py] defines
    [async_play_media] only, so the call reaches the method inherited from
    the framework's [MediaPlayerEntity], which lies outside this repository.
    [play_media_raises] is what that method does: [None] when it returns,
    [Some x] when it raises [x]. *)
Variable play_media_raises : option exn.

Definition entity_play_media (media_type : string) (media_id : pyval)
  : M VoiceAssistantPipeline unit :=
  run perform (EntityPlayMedia media_type media_id);
  match play_media_raises with
  | None => ret tt
  | Some x => raise x
  end.

(** The branches of [_event_callback]: they compute the event type to
    forward, [data_to_send] and [error]. *)
Definition translate (event : PipelineEvent)
  : M VoiceAssistantPipeline (PipelineEventType * pyval * bool) :=
  let event_type := type event in
  match event_type with
  | STT_START =>
      (* [self.is_running = True]: the property has no setter *)
      raise (AttributeError "is_running")
  | STT_END =>
      run assert_not_none (data event);
      do stt_output <- lift (subscript (data event) "stt_output");
      do text <- lift (subscript stt_output "text");
      ret (event_type, VDict [("text", text)], false)
  | INTENT_END =>
      run assert_not_none (data event);
      do intent_output <- lift (subscript (data event) "intent_output");
      do conversation_id <- lift (subscript intent_output "conversation_id");
      ret (event_type,
           VDict [("conversation_id", py_or conversation_id (VStr ""))], false)
  | TTS_START =>
      run assert_not_none (data event);
      do tts_input <- lift (subscript (data event) "tts_input");
      ret (event_type, VDict [("text", tts_input)], false)
  | TTS_END =>
      run assert_not_none (data event);
      do tts_output <- lift (subscript (data event) "tts_output");
      if truthy tts_output then
        do path <- lift (subscript tts_output "url");
        run entity_play_media "url" path;
        ret (event_type, VNone, false)
      else
        run tts_done_set;
        ret (event_type, VDict [], false)
  | WAKE_WORD_END =>
      run assert_not_none (data event);
      do wake_word_output <- lift (subscript (data event) "wake_word_output");
      if negb (truthy wake_word_output) then
        ret (ERROR,
             VDict [("code", VStr "no_wake_word");
                    ("message", VStr "No wake word detected")], true)
      else ret (event_type, VNone, false)
  | ERROR =>
      run assert_not_none (data event);
      do code <- lift (subscript (data event) "code");
      do message <- lift (subscript (data event) "message");
      ret (event_type, VDict [("code", code); ("message", message)], true)
  | OTHER_EVENT _ => ret (event_type, VNone, false)
  end.

(** [_event_callback]. *)
Definition _event_callback (event : PipelineEvent)
  : M VoiceAssistantPipeline unit :=
  do t <- translate event;
  let '(event_type, data_to_send, error) := t in
  run handle_event event_type data_to_send;
  if error : bool then
    run tts_done_set;
    handle_finished
  else ret tt.

(** [await async_pipeline_from_audio_stream(..., event_callback=...)]. *)
Fixpoint async_pipeline_from_audio_stream
    (event_callback : PipelineEvent -> M VoiceAssistantPipeline unit)
    (p : pipeline) : M VoiceAssistantPipeline unit :=
  match p with
  | Return => ret tt
  | Throw x => raise x
  | Emit event rest =>
      run event_callback event;
      async_pipeline_from_audio_stream event_callback rest
  end.

(** The [finally] clause, then the way the call ends. *)
Definition finally_finished (self : VoiceAssistantPipeline) (o : outcome)
  : VoiceAssistantPipeline * outcome :=
  (fst (handle_finished self), o).

(** [run_pipeline], for the staged pipeline behaving as [p].  The settings
    arguments and their defaults only select that behaviour. *)
Definition run_pipeline (p : pipeline) (self : VoiceAssistantPipeline)
  : VoiceAssistantPipeline * outcome :=
  let self := fst (log "debug" "Starting pipeline" self) in
  match async_pipeline_from_audio_stream _event_callback p self with
  | (self, Ok _) =>
      (* Block until TTS is done sending *)
      if _tts_done self then
        finally_finished (fst (log "debug" "Pipeline finished" self)) Returned
      else (self, Blocked)
  | (self, Raise PipelineNotFound) =>
      let self :=
        fst (handle_event ERROR
               (VDict [("code", VStr "pipeline not found");
                       ("message", VStr "Selected pipeline not found")]) self) in
      finally_finished (fst (log "warning" "Pipeline not found" self)) Returned
  | (self, Raise WakeWordDetectionAborted) =>
      finally_finished self Returned
  | (self, Raise (WakeWordDetectionError code message)) =>
      let self :=
        fst (handle_event ERROR
               (VDict [("code", VStr code); ("message", VStr message)]) self) in
      finally_finished self Returned
  | (self, Raise x) => finally_finished self (Raised x)
  end.

(** What handling [event] performs and how it ends.  Neither depends on the
    object the handler starts from (lemma [event_callback_spec]), so both are
    read off a fresh object. *)
Definition callback_actions (event : PipelineEvent) : list action :=
  trace (fst (_event_callback event init)).

Definition callback_result (event : PipelineEvent) : res unit :=
  snd (_event_callback event init).

Definition completes (event : PipelineEvent) : bool :=
  match callback_result event with Ok _ => true | Raise _ => false end.

(** The stage events handed to the callback during the run, in order; the
    last one is the event whose handling raised, if any did. *)
Fixpoint received (p : pipeline) : list PipelineEvent :=
  match p with
  | Emit event rest =>
      event :: (if completes event then received rest else [])
  | _ => []
  end.

(** The stage events whose handling completed. *)
Fixpoint handled (p : pipeline) : list PipelineEvent :=
  match p with
  | Emit event rest => if completes event then event :: handled rest else []
  | _ => []
  end.

(** What the call of the staged pipeline performs and how it ends. *)
Definition pipeline_actions (p : pipeline) : list action :=
  trace (fst (async_pipeline_from_audio_stream _event_callback p init)).

Definition pipeline_result (p : pipeline) : res unit :=
  snd (async_pipeline_from_audio_stream _event_callback p init).

(** The call of the staged pipeline returns instead of raising. *)
Definition pipeline_returns (p : pipeline) : bool :=
  match pipeline_result p with Ok _ => true | Raise _ => false end.

End WithEntity.

(** The stage event is one that [_event_callback] turns into an error: an
    [ERROR] event, or a [WAKE_WORD_END] without a wake word. *)
Definition reports_error (event : PipelineEvent) : bool :=
  match type event with
  | ERROR => true
  | WAKE_WORD_END =>
      match subscript (data event) "wake_word_output" with
      | Ok v => negb (truthy v)
      | Raise _ => false
      end
  | _ => false
  end.

(** The stage event is one whose handling sets [_tts_done]: one that is
    turned into an error, or a [TTS_END] without output. *)
Definition unblocks (event : PipelineEvent) : bool :=
  reports_error event
  || match type event with
     | TTS_END =>
         match subscript (data event) "tts_output" with
         | Ok out => negb (truthy out)
         | Raise _ => false
         end
     | _ => false
     end.

(** The exception classes that [run_pipeline] catches. *)
Definition swallowed (x : exn) : bool :=
  match x with
  | PipelineNotFound | WakeWordDetectionAborted | WakeWordDetectionError _ _ =>
      true
  | _ => false
  end.

(** The [ERROR] event that [run_pipeline] itself reports for an exception. *)
Definition reported (x : exn) : list (PipelineEventType * pyval) :=
  match x with
  | PipelineNotFound =>
      [(ERROR, VDict [("code", VStr "pipeline not found");
                      ("message", VStr "Selected pipeline not found")])]
  | WakeWordDetectionError code message =>
      [(ERROR, VDict [("code", VStr code); ("message", VStr message)])]
  | _ => []
  end.

(** Observations on a trace. *)
Definition is_finished (a : action) : bool :=
  match a with HandleFinished => true | _ => false end.

Definition finished_count (tr : list action) : nat :=
  length (List.filter is_finished tr).

(** The calls of [handle_event], in order. *)
Fixpoint events_sent (tr : list action) : list (PipelineEventType * pyval) :=
  match tr with
  | [] => []
  | HandleEvent t d :: rest => (t, d) :: events_sent rest
  | _ :: rest => events_sent rest
  end.

(** The calls of [handle_event] that carry a payload. *)
Fixpoint events_with_payload (tr : list action)
  : list (PipelineEventType * pyval) :=
  match tr with
  | [] => []
  | HandleEvent _ VNone :: rest => events_with_payload rest
  | HandleEvent t d :: rest => (t, d) :: events_with_payload rest
  | _ :: rest => events_with_payload rest
  end.

Definition is_play (a : action) : bool :=
  match a with EntityPlayMedia _ _ => true | _ => false end.

Definition is_set (a : action) : bool :=
  match a with TtsDoneSet => true | _ => false end.

(** The object after performing [acts]: the trace grows, and the signal is
    set if it was or if [acts] sets it. *)
Definition after (acts : list action) (self : VoiceAssistantPipeline)
  : VoiceAssistantPipeline :=
  {| started := started self;
     stop_requested := stop_requested self;
     _tts_done := _tts_done self || existsb is_set acts;
     trace := trace self ++ acts |}.

(** Stage events with the payload fields that the handler reads. *)
Definition wake_word_end (wake_word_output : pyval) : PipelineEvent :=
  {| type := WAKE_WORD_END;
     data := VDict [("wake_word_output", wake_word_output)] |}.

Definition stt_start : PipelineEvent :=
  {| type := STT_START; data := VDict [("engine", VStr "stt.provider")] |}.

Definition stt_end (text : pyval) : PipelineEvent :=
  {| type := STT_END; data := VDict [("stt_output", VDict [("text", text)])] |}.

Definition intent_end (conversation_id : pyval) : PipelineEvent :=
  {| type := INTENT_END;
     data := VDict [("intent_output",
                     VDict [("conversation_id", conversation_id)])] |}.

Definition tts_start (tts_input : pyval) : PipelineEvent :=
  {| type := TTS_START; data := VDict [("tts_input", tts_input)] |}.

Definition tts_end (tts_output : pyval) : PipelineEvent :=
  {| type := TTS_END; data := VDict [("tts_output", tts_output)] |}.

Definition error_event (code message : pyval) : PipelineEvent :=
  {| type := ERROR; data := VDict [("code", code); ("message", message)] |}.

(** The stage events of a run that gets through every stage. *)
Definition stages_finished (wake_word_output text conversation_id tts_input
                            tts_output : pyval) : pipeline :=
  Emit (wake_word_end wake_word_output)
    (Emit (stt_end text)
       (Emit (intent_end conversation_id)
          (Emit (tts_start tts_input)
             (Emit (tts_end tts_output) Return)))).

(** The same with the [STT_START] event that opens the speech-to-text
    stage. *)
Definition stages_with_stt_start (wake_word_output text conversation_id
                                  tts_input tts_output : pyval) : pipeline :=
  Emit (wake_word_end wake_word_output)
    (Emit stt_start
       (Emit (stt_end text)
          (Emit (intent_end conversation_id)
             (Emit (tts_start tts_input)
                (Emit (tts_end tts_output) Return))))).

(** A statement is _uniform_ when what it performs and how it ends do not
    depend on the object it starts from. *)
Definition uniform {A} (c : M VoiceAssistantPipeline A) : Prop :=
  exists acts r, forall s, c s = (after acts s, r).

End VoiceAssistant.

(** ** [config_flow.py] *)

Module ConfigFlow.
Import Py.

(** What a step hands back to the framework's flow manager: a form to show
    (with the default of its one field), an abort, or the request to create
    an entry. *)
Inductive FlowResult : Type :=
| ShowForm (step_id : string) (default_hostname : string)
| Abort (reason : string)
| CreateEntry (title : string) (entry_data : gmap string string).

Section WithConstants.

(** The key [HOSTNAME] of [const.py], a module that is not among the sources
    at hand. *)
Variable HOSTNAME : string.

(** What [hass.config_entries.async_reload] does: [None] when it returns,
    [Some x] when it raises [x]. *)
Variable reload_raises : option exn.

(** The state is the framework's store of the integration's configuration
    entries, entry id to [entry.data]; a form has [str] fields only. *)

(** [generate_schema]: one required field with the default ["raspberrypi"]. *)
Definition generate_schema : string := "raspberrypi".

(** [generate_schema_config]: the default is
    [config_entry.data.get(HOSTNAME, "raspberrypi")]. *)
Definition generate_schema_config (entry_data : gmap string string) : string :=
  default "raspberrypi" (entry_data !! HOSTNAME).

(** The framework's [_async_abort_entries_match]: it raises
    [AbortFlow("already_configured")], a subclass of [Exception], when some
    current entry holds every item of [match_dict]. *)
Definition _async_abort_entries_match (match_dict : gmap string string)
  : M (gmap string (gmap string string)) unit :=
  fun entries =>
    if decide (map_Exists
                 (fun _ entry_data =>
                    map_Forall (fun k v => entry_data !! k = Some v) match_dict)
                 entries)
    then (entries, Raise (AbortFlow "already_configured"))
    else (entries, Ok tt).

(** The framework's [async_update_entry(entry, data=...)]. *)
Definition async_update_entry (entry_id : string) (new_data : gmap string string)
  : M (gmap string (gmap string string)) unit :=
  modify (fun entries => <[entry_id := new_data]> entries).

Definition async_reload (entry_id : string)
  : M (gmap string (gmap string string)) unit :=
  match reload_raises with
  | None => ret tt
  | Some x => raise x
  end.

(** [user_input[key]]. *)
Definition input_subscript (user_input : gmap string string) (key : string)
  : res string :=
  match user_input !! key with
  | Some v => Ok v
  | None => Raise (KeyError key)
  end.

(** [async_step_user].  The [except Exception] clause logs and falls through
    to the form. *)
Definition async_step_user (user_input : option (gmap string string))
  : M (gmap string (gmap string string)) FlowResult :=
  let data_schema := generate_schema in
  match user_input with
  | Some user_input =>
      try_except
        (do hostname <- lift (input_subscript user_input HOSTNAME);
         run _async_abort_entries_match {[HOSTNAME := hostname]};
         ret (CreateEntry (default "raspberrypi" (user_input !! HOSTNAME))
                          user_input))
        (fun _ => Some (ret (ShowForm "user" data_schema)))
  | None => ret (ShowForm "user" data_schema)
  end.

(** [async_step_reconfigure], for the entry named by
    [self.context["entry_id"]]. *)
Definition async_step_reconfigure (entry_id : string)
    (user_input : option (gmap string string))
  : M (gmap string (gmap string string)) FlowResult :=
  do config <- gets (fun entries => entries !! entry_id);
  match config with
  | None => raise (AttributeError "data")
  | Some entry_data =>
      let data_schema := generate_schema_config entry_data in
      match user_input with
      | Some user_input =>
          try_except
            (run async_update_entry entry_id user_input;
             run async_reload entry_id;
             ret (Abort "reconfigure_successful"))
            (fun _ => Some (ret (ShowForm "reconfigure" data_schema)))
      | None => ret (ShowForm "reconfigure" data_schema)
      end
  end.

(** The flow manager acting on a result: a [CreateEntry] adds an entry under
    a new id, anything else leaves the store alone. *)
Definition finish_flow (new_id : string) (result : res FlowResult)
    (entries : gmap string (gmap string string))
  : gmap string (gmap string string) :=
  match result with
  | Ok (CreateEntry _ entry_data) => <[new_id := entry_data]> entries
  | _ => entries
  end.

(** No two entries name the same host. *)
Definition hostnames_distinct (entries : gmap string (gmap string string))
  : Prop :=
  forall i j di dj h,
    entries !! i = Some di -> entries !! j = Some dj ->
    di !! HOSTNAME = Some h -> dj !! HOSTNAME = Some h -> i = j.

End WithConstants.

End ConfigFlow.

(** ** Properties of the identity derivation *)

Module EntityIdFacts.
Import PyStr EntityId.

Ltac by_cases_on_char c :=
  destruct c as [[] [] [] [] [] [] [] []]; vm_compute; reflexivity.

Lemma is_alnum_lower_char c : is_alnum (lower_char c) = is_alnum c.
Proof. by_cases_on_char c. Qed.

Lemma lower_char_idem c : lower_char (lower_char c) = lower_char c.
Proof. by_cases_on_char c. Qed.


Lemma lower_app s t : lower (s ++ t) = lower s ++ lower t.
Proof. induction s as [|c s IH]; simpl; [reflexivity | now rewrite IH]. Qed.

Lemma lower_idem s : lower (lower s) = lower s.
Proof.
  induction s as [|c s IH]; simpl; [reflexivity|].
  now rewrite lower_char_idem, IH.
Qed.

(** Lower-casing commutes with the substitution: it neither creates nor
    removes characters of the class. *)
Lemma re_sub_lower b s :
  re_sub_non_alnum "_" b (lower s) = lower (re_sub_non_alnum "_" b s).
Proof.
  revert b; induction s as [|c s IH]; intros b; simpl; [reflexivity|].
  rewrite is_alnum_lower_char.
  destruct (is_alnum c) eqn:Hc; simpl.
  - now rewrite IH.
  - destruct b; simpl; rewrite IH; [reflexivity|].
    replace (lower_char "_") with "_"%char by reflexivity.
    assert (Hl : lower_char c = c)
      by (revert Hc; destruct c as [[] [] [] [] [] [] [] []]; vm_compute; congruence).
    reflexivity.
Qed.








End EntityIdFacts.

(** ** Properties of the pipeline driver *)

Module VoiceAssistantFacts.
Import Py VoiceAssistant.
Local Open Scope list_scope.

Lemma after_nil s : after [] s = s.
Proof.
  destruct s; unfold after; simpl.
  now rewrite orb_false_r, app_nil_r.
Qed.

Lemma after_app a b s : after b (after a s) = after (a ++ b) s.
Proof.
  unfold after; simpl.
  now rewrite existsb_app, orb_assoc, app_assoc.
Qed.

Lemma perform_after a s :
  is_set a = false -> perform a s = (after [a] s, Ok tt).
Proof.
  intros H; unfold perform, modify, after; simpl.
  now rewrite H, orb_false_r.
Qed.

Lemma tts_done_set_after s : tts_done_set s = (after [TtsDoneSet] s, Ok tt).
Proof.
  unfold tts_done_set, modify, after; simpl.
  now rewrite orb_true_r.
Qed.

Lemma log_after l m s : fst (log l m s) = after [Log l m] s.
Proof. unfold log. now rewrite perform_after. Qed.

Lemma handle_event_after t d s :
  fst (handle_event t d s) = after [HandleEvent t d] s.
Proof. unfold handle_event. now rewrite perform_after. Qed.

Lemma finally_finished_after s o :
  finally_finished s o = (after [HandleFinished] s, o).
Proof. unfold finally_finished, handle_finished. now rewrite perform_after. Qed.

Lemma tts_done_after acts s :
  _tts_done (after acts s) = _tts_done s || existsb is_set acts.
Proof. reflexivity. Qed.

Lemma trace_after acts s : trace (after acts s) = trace s ++ acts.
Proof. reflexivity. Qed.

Lemma init_after acts : after acts init = {| started := false; stop_requested := false;
    _tts_done := existsb is_set acts; trace := acts |}.
Proof. reflexivity. Qed.

(** Unfolds the handler down to its primitive statements. *)
Ltac expose :=
  cbv beta iota zeta delta
    [callback_actions callback_result completes reports_error _event_callback
     translate entity_play_media handle_event handle_finished assert_not_none
     subscript bind lift ret raise type data].

Section CallbackShape.
Variable pm : option exn.

Lemma uniform_ret {A} (a : A) : uniform (ret a).
Proof. exists [], (Ok a); intros s; unfold ret; now rewrite after_nil. Qed.

Lemma uniform_raise {A} x : uniform (@raise _ A x).
Proof. exists [], (Raise x); intros s; unfold raise; now rewrite after_nil. Qed.

Lemma uniform_lift {A} (r : res A) : uniform (lift r).
Proof. exists [], r; intros s; unfold lift; now rewrite after_nil. Qed.

Lemma uniform_perform a : is_set a = false -> uniform (perform a).
Proof. intros H; exists [a], (Ok tt); intros s; now apply perform_after. Qed.

Lemma uniform_tts_done_set : uniform tts_done_set.
Proof. exists [TtsDoneSet], (Ok tt); intros s; apply tts_done_set_after. Qed.

Lemma uniform_bind {A B} (c : M VoiceAssistantPipeline A)
    (k : A -> M VoiceAssistantPipeline B) :
  uniform c -> (forall a, uniform (k a)) -> uniform (bind c k).
Proof.
  intros (acts & r & Hc) Hk.
  destruct r as [a|x].
  - destruct (Hk a) as (acts' & r' & Hka).
    exists (acts ++ acts'), r'; intros s.
    unfold bind; rewrite Hc, Hka. now rewrite after_app.
  - exists acts, (Raise x); intros s. unfold bind; now rewrite Hc.
Qed.

Lemma uniform_assert v : uniform (assert_not_none v).
Proof. destruct v; simpl; auto using uniform_ret, uniform_raise. Qed.

Lemma uniform_entity_play_media t m : uniform (entity_play_media pm t m).
Proof.
  unfold entity_play_media. apply uniform_bind.
  - now apply uniform_perform.
  - intros _. destruct pm; auto using uniform_ret, uniform_raise.
Qed.

Ltac uniform_step :=
  first
    [ apply uniform_ret | apply uniform_raise | apply uniform_lift
    | apply uniform_assert | apply uniform_tts_done_set
    | apply uniform_entity_play_media
    | apply uniform_perform; reflexivity
    | apply uniform_bind; [| intros ?]
    | match goal with |- uniform (if ?b then _ else _) => destruct b end ].

Lemma uniform_translate e : uniform (translate pm e).
Proof.
  destruct e as [t d]; unfold translate; simpl.
  destruct t; repeat uniform_step.
Qed.

Lemma uniform_event_callback e : uniform (_event_callback pm e).
Proof.
  unfold _event_callback. apply uniform_bind; [apply uniform_translate|].
  intros [[t d] err]. unfold handle_event, handle_finished.
  repeat uniform_step.
Qed.

(** Handling an event appends [callback_actions] to the trace and ends as
    [callback_result] says, whatever the object was. *)
Lemma event_callback_spec e s :
  _event_callback pm e s = (after (callback_actions pm e) s, callback_result pm e).
Proof.
  destruct (uniform_event_callback e) as (acts & r & H).
  unfold callback_actions, callback_result.
  rewrite (H init), H. reflexivity.
Qed.

Lemma uniform_pipeline p :
  uniform (async_pipeline_from_audio_stream (_event_callback pm) p).
Proof.
  induction p as [|x|e p IH]; simpl.
  - apply uniform_ret.
  - apply uniform_raise.
  - apply uniform_bind; [apply uniform_event_callback | intros _; exact IH].
Qed.

Lemma pipeline_spec p s :
  async_pipeline_from_audio_stream (_event_callback pm) p s
  = (after (pipeline_actions pm p) s, pipeline_result pm p).
Proof.
  destruct (uniform_pipeline p) as (acts & r & H).
  unfold pipeline_actions, pipeline_result.
  rewrite (H init), H. reflexivity.
Qed.

Lemma completes_result e :
  completes pm e = true -> callback_result pm e = Ok tt.
Proof.
  unfold completes. destruct (callback_result pm e) as [[]|]; congruence.
Qed.

Lemma pipeline_actions_emit e p :
  pipeline_actions pm (Emit e p)
  = callback_actions pm e ++ (if completes pm e then pipeline_actions pm p else []).
Proof.
  unfold pipeline_actions at 1; simpl. unfold bind.
  rewrite event_callback_spec. unfold completes.
  destruct (callback_result pm e); simpl.
  - now rewrite pipeline_spec.
  - now rewrite app_nil_r.
Qed.

Lemma pipeline_result_emit e p :
  pipeline_result pm (Emit e p)
  = if completes pm e then pipeline_result pm p else callback_result pm e.
Proof.
  unfold pipeline_result at 1; simpl. unfold bind.
  rewrite event_callback_spec. unfold completes.
  destruct (callback_result pm e); simpl; [|reflexivity].
  now rewrite pipeline_spec.
Qed.

(** The trace and outcome of a whole run, in closed form. *)
Lemma run_pipeline_spec p s :
  run_pipeline pm p s =
  let acts := Log "debug" "Starting pipeline" :: pipeline_actions pm p in
  match pipeline_result pm p with
  | Ok _ =>
      if _tts_done s || existsb is_set (pipeline_actions pm p)
      then (after (acts ++ [Log "debug" "Pipeline finished"; HandleFinished]) s,
            Returned)
      else (after acts s, Blocked)
  | Raise PipelineNotFound =>
      (after (acts ++
              [HandleEvent ERROR
                 (VDict [("code", VStr "pipeline not found");
                         ("message", VStr "Selected pipeline not found")]);
               Log "warning" "Pipeline not found"; HandleFinished]) s, Returned)
  | Raise WakeWordDetectionAborted => (after (acts ++ [HandleFinished]) s, Returned)
  | Raise (WakeWordDetectionError code message) =>
      (after (acts ++
              [HandleEvent ERROR
                 (VDict [("code", VStr code); ("message", VStr message)]);
               HandleFinished]) s, Returned)
  | Raise x => (after (acts ++ [HandleFinished]) s, Raised x)
  end.
Proof.
  unfold run_pipeline.
  rewrite log_after, pipeline_spec, after_app.
  change ([Log "debug" "Starting pipeline"] ++ pipeline_actions pm p)
    with (Log "debug" "Starting pipeline" :: pipeline_actions pm p).
  destruct (pipeline_result pm p) as [[]|x]; cbv zeta.
  - rewrite tts_done_after.
    change (existsb is_set (Log "debug" "Starting pipeline" :: pipeline_actions pm p))
      with (existsb is_set (pipeline_actions pm p)).
    destruct (_tts_done s || existsb is_set (pipeline_actions pm p)); [|reflexivity].
    now rewrite log_after, finally_finished_after, !after_app, <- ?app_assoc.
  - destruct x;
      rewrite ?handle_event_after, ?log_after, finally_finished_after, !after_app,
        <- ?app_assoc; reflexivity.
Qed.

(** *** One event at a time *)

Ltac case_step :=
  match goal with
  | |- context [dict_get ?k ?items] =>
      is_var items; destruct (dict_get k items) eqn:?
  | |- context [truthy ?v] => is_var v; destruct (truthy v) eqn:?
  | |- context [match ?d with VNone => _ | _ => _ end] => is_var d; destruct d
  | |- context [match pm with Some _ => _ | None => _ end] => destruct pm
  end.

(** Splits a goal about the handling of [e] into the paths through
    [_event_callback]. *)
Ltac callback_cases e :=
  let t := fresh "t" in
  let d := fresh "d" in
  destruct e as [t d]; destruct t; expose; repeat (case_step; expose).

(** Handling an event calls [handle_finished] once when the event is turned
    into an error and the handling completes, and not at all otherwise. *)
Lemma callback_finished_count e :
  finished_count (callback_actions pm e)
  = if completes pm e && reports_error e then 1 else 0.
Proof. callback_cases e; cbv; reflexivity. Qed.

(** Whenever the handler calls [handle_finished] it has set the signal. *)
Lemma callback_finished_sets e :
  existsb is_set (callback_actions pm e) = false ->
  finished_count (callback_actions pm e) = 0.
Proof. callback_cases e; cbv; congruence. Qed.

(** The handler writes nothing to the log. *)
Lemma callback_no_log e l m : ~ In (Log l m) (callback_actions pm e).
Proof. callback_cases e; cbv; intuition discriminate. Qed.

(** *** A whole call of the staged pipeline *)

Lemma finished_count_app a b :
  finished_count (a ++ b) = finished_count a + finished_count b.
Proof. unfold finished_count. now rewrite List.filter_app, List.length_app. Qed.

Lemma pipeline_finished_count p :
  finished_count (pipeline_actions pm p)
  = length (List.filter reports_error (handled pm p)).
Proof.
  induction p as [| x | e p IH]; try reflexivity.
  rewrite pipeline_actions_emit, finished_count_app, callback_finished_count.
  simpl handled. destruct (completes pm e); simpl.
  - rewrite IH. now destruct (reports_error e).
  - reflexivity.
Qed.

Lemma pipeline_finished_sets p :
  existsb is_set (pipeline_actions pm p) = false ->
  finished_count (pipeline_actions pm p) = 0.
Proof.
  induction p as [| x | e p IH]; try reflexivity.
  rewrite pipeline_actions_emit, existsb_app, finished_count_app.
  intros H; apply orb_false_iff in H as [He Hp].
  rewrite (callback_finished_sets e He).
  destruct (completes pm e); [now apply IH | reflexivity].
Qed.

Lemma pipeline_no_log p l m : ~ In (Log l m) (pipeline_actions pm p).
Proof.
  induction p as [| x | e p IH]; [intros [] | intros [] |].
  rewrite pipeline_actions_emit, in_app_iff. intros [H | H].
  - exact (callback_no_log e l m H).
  - destruct (completes pm e); [exact (IH H) | destruct H].
Qed.

(** What the handling of a received event performs is a segment of what the
    call performs. *)
Lemma received_segment p e :
  In e (received pm p) ->
  exists before behind,
    pipeline_actions pm p = before ++ callback_actions pm e ++ behind.
Proof.
  induction p as [| x | e' p IH]; [intros [] | intros [] |].
  simpl received. rewrite pipeline_actions_emit. intros [-> | H].
  - exists [], (if completes pm e then pipeline_actions pm p else []).
    reflexivity.
  - destruct (completes pm e'); [| destruct H].
    destruct (IH H) as (before & behind & ->).
    exists (callback_actions pm e' ++ before), behind.
    now rewrite <- app_assoc.
Qed.

Lemma existsb_is_set_In acts :
  existsb is_set acts = true <-> In TtsDoneSet acts.
Proof.
  rewrite existsb_exists; split.
  - intros (a & Ha & Hs). destruct a; try discriminate. exact Ha.
  - intros H; now exists TtsDoneSet.
Qed.

End CallbackShape.

(** The shape of the trace of a run from a fresh object: the start-up log
    line, what the call of the staged pipeline performed, and a tail written
    by [run_pipeline] itself. *)
Lemma run_shape pm p s' o :
  run_pipeline pm p init = (s', o) ->
  exists tail,
    trace s' = Log "debug" "Starting pipeline" :: pipeline_actions pm p ++ tail
    /\ _tts_done s' = existsb is_set (pipeline_actions pm p)
    /\ (o = Blocked ->
        tail = [] /\ existsb is_set (pipeline_actions pm p) = false)
    /\ (o <> Blocked ->
        exists t, tail = t ++ [HandleFinished] /\ finished_count t = 0)
    /\ (forall a b, tail = a ++ Log "debug" "Pipeline finished" :: b ->
        a = [] /\ existsb is_set (pipeline_actions pm p) = true)
    /\ (pipeline_returns pm p = true ->
        if existsb is_set (pipeline_actions pm p)
        then o = Returned else o = Blocked).
Proof.
  rewrite run_pipeline_spec. unfold pipeline_returns. cbv zeta.
  assert (Hsplit : forall (tail : list action) (P : Prop),
             (forall a b, tail = a ++ Log "debug" "Pipeline finished" :: b ->
                          length a < 4 -> a = [] /\ P) ->
             length tail < 4 ->
             forall a b, tail = a ++ Log "debug" "Pipeline finished" :: b ->
                         a = [] /\ P).
  { intros tail P H Hlen a b E. apply (H a b E).
    rewrite E, List.length_app in Hlen. lia. }
  destruct (pipeline_result pm p) as [[]|x].
  - change (_tts_done init) with false. rewrite orb_false_l.
    destruct (existsb is_set (pipeline_actions pm p)) eqn:Hset;
      intros [= <- <-]; rewrite init_after; simpl trace; simpl _tts_done.
    + exists [Log "debug" "Pipeline finished"; HandleFinished].
      rewrite existsb_app, Hset.
      split; [reflexivity|]. split; [reflexivity|].
      split; [discriminate|].
      split; [intros _; now exists [Log "debug" "Pipeline finished"]|].
      split; [|reflexivity].
      apply Hsplit; [|simpl; lia].
      intros [|? [|? [|? [|? ?]]]] b E; simpl in *; intros; try lia;
        split; congruence.
    + exists []. rewrite Hset, app_nil_r.
      split; [reflexivity|]. split; [reflexivity|].
      split; [easy|]. split; [congruence|].
      split; [|reflexivity].
      intros [|? ?] b E; discriminate E.
  - destruct x; intros [= <- <-]; rewrite init_after; simpl trace; simpl _tts_done;
      (eexists; split; [reflexivity|]);
      rewrite existsb_app; simpl existsb; rewrite ?orb_false_r;
      (split; [reflexivity|]); (split; [discriminate|]);
      (split;
       [ intros _;
         first [ exists []; split; reflexivity
               | eexists [_]; split; reflexivity
               | eexists [_; _]; split; reflexivity ] |]);
      (split; [|discriminate]);
      (apply Hsplit; [|simpl; lia]);
      intros [|? [|? [|? [|? ?]]]] b E; simpl in *; intros; try lia;
        discriminate E.
Qed.

(** C1 (amended).  Whenever a run ends, by returning or by raising,
    [handle_finished] has been called once by the [finally] clause, as the
    last action of the run, and once more for every stage event that the
    handler turned into an error; so it is never skipped, and it is called
    exactly once precisely when no such event was handled. *)
Theorem handle_finished_once_plus_errors :
  forall pm p s' o,
    run_pipeline pm p init = (s', o) ->
    o <> Blocked ->
    finished_count (trace s')
    = 1 + length (List.filter reports_error (handled pm p))
    /\ last (trace s') = Some HandleFinished.
Proof.
  intros pm p s' o Hrun Hend.
  destruct (run_shape pm p s' o Hrun) as (tail & Htr & _ & _ & Htail & _).
  destruct (Htail Hend) as (t & -> & Ht).
  rewrite Htr. split.
  - change (Log "debug" "Starting pipeline"
              :: pipeline_actions pm p ++ t ++ [HandleFinished])
      with ([Log "debug" "Starting pipeline"]
              ++ pipeline_actions pm p ++ t ++ [HandleFinished]).
    rewrite !finished_count_app, Ht, pipeline_finished_count.
    change (finished_count [Log "debug" "Starting pipeline"]) with 0.
    change (finished_count [HandleFinished]) with 1.
    lia.
  - rewrite app_comm_cons, app_assoc. apply last_snoc.
Qed.

(** C1, an instance: an [ERROR] stage event followed by the return of the
    staged pipeline. *)
Lemma handle_finished_once_plus_errors_witness :
  finished_count
    (trace (fst (run_pipeline None
                   (Emit (error_event (VStr "stt-no-text") (VStr "no speech"))
                         Return) init)))
  = 2.
Proof.
  pose (p := Emit (error_event (VStr "stt-no-text") (VStr "no speech")) Return).
  apply (handle_finished_once_plus_errors None p
           (fst (run_pipeline None p init)) Returned).
  - reflexivity.
  - discriminate.
Defined.

(** C1 as stated fails: after one [ERROR] stage event the terminal callback
    is called twice, by the handler and by the [finally] clause. *)
Lemma handle_finished_called_twice :
  finished_count
    (trace (fst (run_pipeline None
                   (Emit (error_event (VStr "stt-no-text") (VStr "no speech"))
                         Return) init)))
  <> 1.
Proof. vm_compute. discriminate. Qed.

(** *** Speech synthesis finished *)

Lemma subscript_ok v k x :
  subscript v k = Ok x -> exists items, v = VDict items /\ dict_get k items = Some x.
Proof.
  destruct v; try discriminate. simpl.
  destruct (dict_get k items) eqn:E; [|discriminate].
  intros [= ->]. now exists items.
Qed.

(** [TTS_END] with output: the play call, then [handle_event] without
    payload unless the play call raised. *)
Lemma callback_tts_end_output pm e out u :
  type e = TTS_END ->
  subscript (data e) "tts_output" = Ok out ->
  truthy out = true ->
  subscript out "url" = Ok u ->
  callback_actions pm e
  = EntityPlayMedia "url" u
      :: match pm with None => [HandleEvent TTS_END VNone] | Some _ => [] end
  /\ callback_result pm e
     = match pm with None => Ok tt | Some x => Raise x end.
Proof.
  destruct e as [t d]; simpl; intros -> Hd Ht Hu.
  apply subscript_ok in Hd as (items & -> & Hd).
  apply subscript_ok in Hu as (items' & -> & Hu).
  expose. rewrite Hd, Hu.
  destruct items' as [|kv items']; [discriminate|].
  destruct pm; split; reflexivity.
Qed.

(** [TTS_END] without output: the signal is set and [handle_event] is called
    with an empty payload; there is no play call. *)
Lemma callback_tts_end_empty pm e out :
  type e = TTS_END ->
  subscript (data e) "tts_output" = Ok out ->
  truthy out = false ->
  callback_actions pm e = [TtsDoneSet; HandleEvent TTS_END (VDict [])]
  /\ callback_result pm e = Ok tt.
Proof.
  destruct e as [t d]; simpl; intros -> Hd Ht.
  apply subscript_ok in Hd as (items & -> & Hd).
  expose. rewrite Hd, Ht. split; reflexivity.
Qed.

Lemma split_before_log (front tail t1 t2 : list action) l m :
  ~ In (Log l m) front ->
  front ++ tail = t1 ++ Log l m :: t2 ->
  exists pre, t1 = front ++ pre /\ tail = pre ++ Log l m :: t2.
Proof.
  revert t1; induction front as [|a front IH]; intros t1 Hno E.
  - now exists t1.
  - destruct t1 as [|b t1]; simpl in E.
    + injection E as -> _. exfalso; apply Hno; now left.
    + injection E as -> E.
      destruct (IH t1) as (pre & -> & ->); [|exact E|now exists pre].
      intros H; apply Hno; now right.
Qed.

(** C2 (amended).  In a run in which the handler receives a [TTS_END] event
    whose output is non-empty and carries the URL [u]: the play call with [u]
    is made on the entity, and the terminal callback of the [finally] clause
    comes after it; the run reaches its "Pipeline finished" point only after
    [_tts_done] has been set; and when the call of the staged pipeline
    returns, the run either has the signal and returns or stays blocked in
    the wait without having called [handle_finished]. *)
Theorem play_issued_and_finish_waits_for_signal :
  forall pm p e out u s' o,
    In e (received pm p) ->
    type e = TTS_END ->
    subscript (data e) "tts_output" = Ok out ->
    truthy out = true ->
    subscript out "url" = Ok u ->
    run_pipeline pm p init = (s', o) ->
    (exists t1 t2,
        trace s' = t1 ++ EntityPlayMedia "url" u :: t2
        /\ (o <> Blocked -> In HandleFinished t2))
    /\ (forall t1 t2,
          trace s' = t1 ++ Log "debug" "Pipeline finished" :: t2 ->
          In TtsDoneSet t1)
    /\ (pipeline_returns pm p = true ->
        (o = Returned /\ _tts_done s' = true)
        \/ (o = Blocked /\ _tts_done s' = false
            /\ finished_count (trace s') = 0)).
Proof.
  intros pm p e out u s' o Hin Ht Hout Htruthy Hurl Hrun.
  destruct (run_shape pm p s' o Hrun)
    as (tail & Htr & Hdone & Hblocked & Hended & Hlog & Hret).
  destruct (received_segment pm p e Hin) as (before & behind & Hseg).
  destruct (callback_tts_end_output pm e out u Ht Hout Htruthy Hurl) as [Hacts _].
  split; [|split].
  - exists (Log "debug" "Starting pipeline" :: before).
    eexists. split.
    + rewrite Htr, Hseg, Hacts. simpl. rewrite <- !app_assoc. simpl. reflexivity.
    + intros Hend. destruct (Hended Hend) as (t & -> & _).
      apply in_or_app; right. apply in_or_app; right. now left.
  - intros t1 t2 E. rewrite Htr in E.
    change (Log "debug" "Starting pipeline" :: pipeline_actions pm p ++ tail)
      with ((Log "debug" "Starting pipeline" :: pipeline_actions pm p) ++ tail) in E.
    apply split_before_log in E as (pre & -> & Etail).
    + apply Hlog in Etail as [-> Hset].
      rewrite app_nil_r. right. now apply existsb_is_set_In.
    + intros [H | H]; [discriminate H | exact (pipeline_no_log pm p _ _ H)].
  - intros Hr. specialize (Hret Hr). rewrite Hdone.
    destruct (existsb is_set (pipeline_actions pm p)) eqn:Hset.
    + left. now split.
    + right. split; [exact Hret|]. split; [reflexivity|].
      destruct (Hblocked Hret) as [-> _]. rewrite Htr, app_nil_r.
      change (finished_count (Log "debug" "Starting pipeline" :: pipeline_actions pm p))
        with (finished_count (pipeline_actions pm p)).
      now apply pipeline_finished_sets.
Qed.

(** C2, an instance: synthesis ends with the URL of the audio and the staged
    pipeline returns; the entity's [play_media] returns. *)
Lemma play_issued_and_finish_waits_for_signal_witness :
  let out := VDict [("url", VStr "/api/tts_proxy/reply.mp3")] in
  let p := stages_finished (VDict [("wake_word_id", VStr "hey_pi")])
             (VStr "turn on the light") (VStr "conv-1") (VStr "Done") out in
  exists t1 t2,
    trace (fst (run_pipeline None p init))
    = t1 ++ EntityPlayMedia "url" (VStr "/api/tts_proxy/reply.mp3") :: t2
    /\ (Blocked <> Blocked -> In HandleFinished t2).
Proof.
  intros out p.
  apply (play_issued_and_finish_waits_for_signal None p (tts_end out) out
           (VStr "/api/tts_proxy/reply.mp3")
           (fst (run_pipeline None p init)) Blocked).
  - vm_compute. do 4 right. left. reflexivity.
  - reflexivity.
  - reflexivity.
  - reflexivity.
  - reflexivity.
  - reflexivity.
Defined.

(** C2 as stated fails when an exception leaves the call of the staged
    pipeline after the synthesis: the [finally] clause ends the run, the wait
    is skipped and the signal has never been set. *)
Lemma run_ends_without_signal_on_exception :
  let out := VDict [("url", VStr "/api/tts_proxy/reply.mp3")] in
  let p := Emit (tts_end out) (Throw (OtherError "RuntimeError")) in
  let r := run_pipeline None p init in
  In (tts_end out) (received None p)
  /\ snd r = Raised (OtherError "RuntimeError")
  /\ trace (fst r)
     = [Log "debug" "Starting pipeline";
        EntityPlayMedia "url" (VStr "/api/tts_proxy/reply.mp3");
        HandleEvent TTS_END VNone;
        HandleFinished]
  /\ _tts_done (fst r) = false.
Proof. cbv zeta. split; [now left|]. repeat split. Qed.

(** C3 (amended).  In a run in which the handler receives a [TTS_END] event
    whose output is empty: handling that event makes no play call, sets
    [_tts_done] and calls [handle_event] once, with the kind [TTS_END] and an
    empty payload; and the run is not left blocked in the wait: the signal is
    set and the trace ends with the terminal callback. *)
Theorem empty_synthesis_sends_empty_payload_and_terminates :
  forall pm p e out s' o,
    In e (received pm p) ->
    type e = TTS_END ->
    subscript (data e) "tts_output" = Ok out ->
    truthy out = false ->
    run_pipeline pm p init = (s', o) ->
    callback_actions pm e = [TtsDoneSet; HandleEvent TTS_END (VDict [])]
    /\ callback_result pm e = Ok tt
    /\ _tts_done s' = true
    /\ o <> Blocked
    /\ last (trace s') = Some HandleFinished.
Proof.
  intros pm p e out s' o Hin Ht Hout Hfalsy Hrun.
  destruct (callback_tts_end_empty pm e out Ht Hout Hfalsy) as [Hacts Hres].
  destruct (run_shape pm p s' o Hrun)
    as (tail & Htr & Hdone & Hblocked & Hended & _ & _).
  destruct (received_segment pm p e Hin) as (before & behind & Hseg).
  assert (Hset : existsb is_set (pipeline_actions pm p) = true).
  { apply existsb_is_set_In. rewrite Hseg, Hacts.
    apply in_or_app; right. now left. }
  assert (Hend : o <> Blocked).
  { intros Hb. destruct (Hblocked Hb) as [_ H]. congruence. }
  repeat (split; [assumption || congruence|]).
  destruct (Hended Hend) as (t & -> & _).
  rewrite Htr, app_comm_cons, !app_assoc. apply last_snoc.
Qed.

(** C3, an instance: the only stage event is a [TTS_END] whose output is
    [None]. *)
Lemma empty_synthesis_sends_empty_payload_and_terminates_witness :
  let p := Emit (tts_end VNone) Return in
  trace (fst (run_pipeline None p init))
  = [Log "debug" "Starting pipeline"; TtsDoneSet; HandleEvent TTS_END (VDict []);
     Log "debug" "Pipeline finished"; HandleFinished]
  /\ last (trace (fst (run_pipeline None p init))) = Some HandleFinished.
Proof.
  intros p. split; [reflexivity|].
  apply (empty_synthesis_sends_empty_payload_and_terminates None p (tts_end VNone)
           VNone (fst (run_pipeline None p init)) Returned).
  - left; reflexivity.
  - reflexivity.
  - reflexivity.
  - reflexivity.
  - reflexivity.
Defined.

(** C3 as stated fails: for a [TTS_END] event with empty output the caller's
    [handle_event] is called, with an empty payload. *)
Lemma empty_synthesis_event_is_sent :
  events_sent (callback_actions None (tts_end VNone)) = [(TTS_END, VDict [])]
  /\ events_sent (callback_actions None (tts_end VNone)) <> [].
Proof. split; [reflexivity | discriminate]. Qed.

(** *** The events of a run through all stages *)

Lemma callback_wake_word_detected pm w :
  truthy w = true ->
  callback_actions pm (wake_word_end w) = [HandleEvent WAKE_WORD_END VNone]
  /\ completes pm (wake_word_end w) = true.
Proof.
  intros Hw. unfold wake_word_end. expose.
  change (dict_get "wake_word_output" [("wake_word_output", w)]) with (Some w).
  cbv beta iota. rewrite Hw. split; reflexivity.
Qed.

(** C4 (amended).  In a run whose stage events are [WAKE_WORD_END] with a
    wake word, [STT_END], [INTENT_END], [TTS_START] and [TTS_END] with an
    output carrying a URL, the trace is the start-up log line, the actions of
    the handler, and a tail written by [run_pipeline]; the handler calls
    [handle_event] for every stage event, in order and under the stage's own
    kind, the call for the wake word and (when the play call returns) the one
    for [TTS_END] without payload; the calls with a payload are exactly those
    for [STT_END], [INTENT_END] and [TTS_START], in this order. *)
Theorem stage_events_forwarded_in_order :
  forall pm w text cid input out u s' o,
    truthy w = true ->
    truthy out = true ->
    subscript out "url" = Ok u ->
    let p := stages_finished w text cid input out in
    run_pipeline pm p init = (s', o) ->
    (exists tail,
        trace s' = Log "debug" "Starting pipeline" :: pipeline_actions pm p ++ tail)
    /\ events_sent (pipeline_actions pm p)
       = [(WAKE_WORD_END, VNone);
          (STT_END, VDict [("text", text)]);
          (INTENT_END, VDict [("conversation_id", py_or cid (VStr ""))]);
          (TTS_START, VDict [("text", input)])]
         ++ match pm with None => [(TTS_END, VNone)] | Some _ => [] end
    /\ events_with_payload (pipeline_actions pm p)
       = [(STT_END, VDict [("text", text)]);
          (INTENT_END, VDict [("conversation_id", py_or cid (VStr ""))]);
          (TTS_START, VDict [("text", input)])].
Proof.
  intros pm w text cid input out u s' o Hw Hout Hurl p Hrun.
  destruct (run_shape pm p s' o Hrun) as (tail & Htr & _).
  split; [now exists tail|].
  destruct (callback_wake_word_detected pm w Hw) as [Hwa Hwc].
  destruct (callback_tts_end_output pm (tts_end out) out u
              eq_refl eq_refl Hout Hurl) as [Hta Htr'].
  assert (Hacts : pipeline_actions pm p
                  = [HandleEvent WAKE_WORD_END VNone;
                     HandleEvent STT_END (VDict [("text", text)]);
                     HandleEvent INTENT_END
                       (VDict [("conversation_id", py_or cid (VStr ""))]);
                     HandleEvent TTS_START (VDict [("text", input)]);
                     EntityPlayMedia "url" u]
                    ++ match pm with
                       | None => [HandleEvent TTS_END VNone]
                       | Some _ => []
                       end).
  { unfold p, stages_finished.
    rewrite pipeline_actions_emit, Hwa, Hwc.
    rewrite pipeline_actions_emit.
    change (callback_actions pm (stt_end text))
      with [HandleEvent STT_END (VDict [("text", text)])].
    change (completes pm (stt_end text)) with true. cbv iota.
    rewrite pipeline_actions_emit.
    change (callback_actions pm (intent_end cid))
      with [HandleEvent INTENT_END
              (VDict [("conversation_id", py_or cid (VStr ""))])].
    change (completes pm (intent_end cid)) with true. cbv iota.
    rewrite pipeline_actions_emit.
    change (callback_actions pm (tts_start input))
      with [HandleEvent TTS_START (VDict [("text", input)])].
    change (completes pm (tts_start input)) with true. cbv iota.
    rewrite pipeline_actions_emit, Hta.
    unfold completes. rewrite Htr'.
    destruct pm; reflexivity. }
  rewrite Hacts. destruct pm; split; reflexivity.
Qed.

(** C4, an instance. *)
Lemma stage_events_forwarded_in_order_witness :
  let out := VDict [("url", VStr "/api/tts_proxy/reply.mp3")] in
  let p := stages_finished (VDict [("wake_word_id", VStr "hey_pi")])
             (VStr "turn on the light") (VStr "conv-1") (VStr "Done") out in
  events_with_payload (pipeline_actions None p)
  = [(STT_END, VDict [("text", VStr "turn on the light")]);
     (INTENT_END, VDict [("conversation_id", VStr "conv-1")]);
     (TTS_START, VDict [("text", VStr "Done")])].
Proof.
  intros out p.
  apply (stage_events_forwarded_in_order None
           (VDict [("wake_word_id", VStr "hey_pi")])
           (VStr "turn on the light") (VStr "conv-1") (VStr "Done") out
           (VStr "/api/tts_proxy/reply.mp3")
           (fst (run_pipeline None p init)) Blocked).
  - reflexivity.
  - reflexivity.
  - reflexivity.
  - reflexivity.
Defined.

(** C4 as stated fails.  With the [STT_START] event in the run, the only
    call of [handle_event] is the one for the wake word, and the run ends
    with the [AttributeError] of the handler; without it, [handle_event] is
    called for all five stage events, the wake word and [TTS_END] included,
    and the run stays blocked in the wait, so no terminal callback follows. *)
Lemma successful_run_events_differ :
  let out := VDict [("url", VStr "/api/tts_proxy/reply.mp3")] in
  let w := VDict [("wake_word_id", VStr "hey_pi")] in
  let with_start := run_pipeline None
        (stages_with_stt_start w (VStr "turn on the light") (VStr "conv-1")
           (VStr "Done") out) init in
  let without_start := run_pipeline None
        (stages_finished w (VStr "turn on the light") (VStr "conv-1")
           (VStr "Done") out) init in
  map fst (events_sent (trace (fst with_start))) = [WAKE_WORD_END]
  /\ snd with_start = Raised (AttributeError "is_running")
  /\ map fst (events_sent (trace (fst without_start)))
     = [WAKE_WORD_END; STT_END; INTENT_END; TTS_START; TTS_END]
  /\ snd without_start = Blocked
  /\ finished_count (trace (fst without_start)) = 0
  /\ map fst (events_sent (trace (fst with_start)))
     <> [STT_END; INTENT_END; TTS_START]
  /\ map fst (events_sent (trace (fst without_start)))
     <> [STT_END; INTENT_END; TTS_START].
Proof. cbv zeta. repeat split; try reflexivity; vm_compute; discriminate. Qed.

(** Without an error event, non-empty synthesis leaves the run blocked:
    no branch of the handler sets [_tts_done] after the play call. *)
Lemma run_blocks_after_playback :
  forall p, pipeline_returns None p = true ->
    existsb is_set (pipeline_actions None p) = false ->
    snd (run_pipeline None p init) = Blocked.
Proof.
  intros p Hret Hset.
  destruct (run_pipeline None p init) as [s' o] eqn:Hrun.
  destruct (run_shape None p s' o Hrun) as (_ & _ & _ & _ & _ & _ & H).
  specialize (H Hret). rewrite Hset in H. exact H.
Qed.

(** C5 (as the code behaves).  Handling an [STT_START] event raises
    [AttributeError]: [is_running] is a property without a setter.  Nothing is
    performed, the object is unchanged, and [is_running] is still false on a
    freshly constructed object. *)
Theorem stt_start_raises_attribute_error :
  forall pm (d : pyval) (self : VoiceAssistantPipeline),
    _event_callback pm {| type := STT_START; data := d |} self
    = (self, Raise (AttributeError "is_running"))
    /\ is_running init = false.
Proof. intros pm d self; split; reflexivity. Qed.

End VoiceAssistantFacts.

(** ** Properties of the media-player entity *)

Module MediaPlayerFacts.
Import Py MediaPlayer.
Local Open Scope list_scope.

(** The requests of [update_states] and [send_command]. *)
Lemma update_states_raise x self :
  update_states (Raise x) self
  = if is_TimeoutError x
    then ({| hostname := hostname self;
             attrs := <["state" := VStr "unavailable"]> (attrs self);
             sent := sent self
                     ++ [HttpGet ("http://" ++ hostname self ++ "/api/state")%string 1];
             logged := logged self |}, Ok tt)
    else ({| hostname := hostname self;
             attrs := attrs self;
             sent := sent self
                     ++ [HttpGet ("http://" ++ hostname self ++ "/api/state")%string 1];
             logged := logged self |}, Raise x).
Proof. destruct x; reflexivity. Qed.

Lemma send_command_sent command args response self :
  sent (fst (send_command command args response self))
  = sent self
    ++ [HttpPost ("http://" ++ hostname self ++ "/api/command/" ++ command)%string
                 args 1].
Proof.
  unfold send_command, try_except, bind, gets, issue, modify, lift; simpl.
  destruct response as [result | x]; simpl.
  - destruct (subscript result "success") as [v | x]; simpl; [reflexivity|].
    destruct (is_TimeoutError x); reflexivity.
  - destruct (is_TimeoutError x); reflexivity.
Qed.

(** The [except] clause of [update_states] as it is written.  For the
    built-in [TimeoutError] the method raises nothing and sets [state] to
    ["unavailable"], leaving every other attribute as it was.  Any other
    exception of the request leaves [update_states] with the attributes
    untouched, and it is [async_update] that catches it, logs it and raises
    nothing. *)
Theorem update_states_unavailable_on_TimeoutError :
  forall (self : PiAssistantMediaPlayer),
    (snd (update_states (Raise TimeoutError) self) = Ok tt
     /\ attrs (fst (update_states (Raise TimeoutError) self)) !! "state"
        = Some (VStr "unavailable")
     /\ (forall name : string, name <> "state" ->
           attrs (fst (update_states (Raise TimeoutError) self)) !! name
           = attrs self !! name))
    /\ (forall x, is_TimeoutError x = false ->
          snd (update_states (Raise x) self) = Raise x
          /\ attrs (fst (update_states (Raise x) self)) = attrs self
          /\ snd (async_update (Raise x) self) = Ok tt
          /\ attrs (fst (async_update (Raise x) self)) = attrs self
          /\ logged (fst (async_update (Raise x) self))
             = logged self ++ ["ERROR async_update()"%string]).
Proof.
  intros self. split.
  - rewrite update_states_raise; simpl. split; [reflexivity|]. split.
    + apply lookup_insert_eq.
    + intros name Hne. now apply lookup_insert_ne.
  - intros x Hx. unfold async_update, try_except.
    rewrite update_states_raise, Hx; simpl. repeat split.
Qed.

(** An instance: a refused connection. *)
Lemma update_states_unavailable_on_TimeoutError_witness :
  snd (async_update (Raise (OtherError "requests.exceptions.ConnectionError"))
         (init "raspberrypi")) = Ok tt.
Proof.
  apply (proj2 (update_states_unavailable_on_TimeoutError (init "raspberrypi"))
           (OtherError "requests.exceptions.ConnectionError")).
  reflexivity.
Defined.

(** When the connection is refused, [update_states] raises to its caller
    and [state] is not set to ["unavailable"]. *)
Lemma update_states_raises_on_connection_error :
  let x := OtherError "requests.exceptions.ConnectionError" in
  snd (update_states (Raise x) (init "raspberrypi")) = Raise x
  /\ attrs (fst (update_states (Raise x) (init "raspberrypi"))) !! "state"
     <> Some (VStr "unavailable").
Proof.
  intros x. rewrite update_states_raise. simpl. split; [reflexivity|].
  unfold init; simpl. rewrite !lookup_insert_ne by discriminate.
  rewrite lookup_empty. discriminate.
Qed.

(** C7 (as the code behaves).  When the state request runs into its timeout,
    the HTTP library raises [ConnectTimeout] or [ReadTimeout], which the
    clause [except TimeoutError] does not catch: [update_states] raises the
    exception to its caller and writes no attribute, so [state] does not
    become ["unavailable"]; [async_update] catches it and only logs, again
    with no attribute written. *)
Theorem update_states_raises_when_request_times_out :
  forall (self : PiAssistantMediaPlayer),
    let misses (x : exn) :=
      is_TimeoutError x = false
      /\ snd (update_states (Raise x) self) = Raise x
      /\ attrs (fst (update_states (Raise x) self)) = attrs self
      /\ snd (async_update (Raise x) self) = Ok tt
      /\ attrs (fst (async_update (Raise x) self)) = attrs self
      /\ (attrs self !! "state" <> Some (VStr "unavailable") ->
          attrs (fst (async_update (Raise x) self)) !! "state"
          <> Some (VStr "unavailable")) in
    misses connect_timeout /\ misses read_timeout.
Proof.
  intros self. cbv zeta.
  assert (H : forall cls,
             snd (update_states (Raise (OtherError cls)) self)
             = Raise (OtherError cls)
             /\ attrs (fst (update_states (Raise (OtherError cls)) self))
                = attrs self
             /\ snd (async_update (Raise (OtherError cls)) self) = Ok tt
             /\ attrs (fst (async_update (Raise (OtherError cls)) self))
                = attrs self).
  { intros cls. unfold async_update, try_except.
    rewrite update_states_raise. simpl. repeat split. }
  unfold connect_timeout, read_timeout.
  split; (split; [reflexivity|]);
    destruct (H "requests.exceptions.ConnectTimeout") as (H1 & H2 & H3 & H4);
    destruct (H "requests.exceptions.ReadTimeout") as (H5 & H6 & H7 & H8);
    repeat (split; [assumption|]); intros Hstate; congruence.
Qed.

(** C8 (amended).  [set_volume_level] checks nothing: for every value it
    issues exactly one request, the [set_volume] command whose body carries
    the value unchanged. *)
Theorem set_volume_level_forwards_value :
  forall (volume : pyval) (response : res pyval) (self : PiAssistantMediaPlayer),
    sent (fst (set_volume_level volume response self))
    = sent self
      ++ [HttpPost ("http://" ++ hostname self ++ "/api/command/set_volume")%string
                   (VDict [("volume", volume)]) 1].
Proof.
  intros volume response self.
  transitivity
    (sent (fst (send_command "set_volume" (VDict [("volume", volume)])
                  response self))).
  - unfold set_volume_level, bind.
    now destruct (send_command _ _ _ _) as [self' [v | x]].
  - now rewrite send_command_sent.
Qed.

(** C8 as stated fails: the out-of-range volumes 1.1 and -0.1 are sent to the
    device. *)
Lemma out_of_range_volume_is_sent :
  let ok := Ok (VDict [("success", VBool true)]) in
  volume_in_range (VFloat (11 # 10)) = false
  /\ volume_in_range (VFloat (- 1 # 10)) = false
  /\ volumes_sent (sent (fst (set_volume_level (VFloat (11 # 10)) ok
                                (init "raspberrypi"))))
     = [VFloat (11 # 10)]
  /\ volumes_sent (sent (fst (set_volume_level (VFloat (- 1 # 10)) ok
                                (init "raspberrypi"))))
     = [VFloat (- 1 # 10)].
Proof. repeat split. Qed.

(** C10.  [mute_volume] does the same for both values of its argument: one
    [volume_mute] command with an empty argument mapping. *)
Theorem mute_volume_ignores_argument :
  forall (mute : bool) (response : res pyval) (self : PiAssistantMediaPlayer),
    mute_volume mute response self = mute_volume (negb mute) response self
    /\ mute_volume mute response self
       = bind (send_command "volume_mute" (VDict []) response)
              (fun _ => ret tt) self
    /\ sent (fst (mute_volume mute response self))
       = sent self
         ++ [HttpPost ("http://" ++ hostname self ++ "/api/command/volume_mute")%string
                      (VDict []) 1].
Proof.
  intros mute response self. repeat split.
  transitivity (sent (fst (send_command "volume_mute" (VDict []) response self))).
  - unfold mute_volume, bind.
    now destruct (send_command _ _ _ _) as [self' [v | x]].
  - now rewrite send_command_sent.
Qed.

End MediaPlayerFacts.

(** ** Properties of the configuration flow *)

Module ConfigFlowFacts.
Import Py ConfigFlow.

Section Steps.
Variable HOSTNAME : string.
Variable reload_raises : option exn.

(** The first-run step does not ask for an entry when the submitted host
    name is the one of an existing entry: it shows the form again. *)
Lemma async_step_user_rejects_duplicate
    (entries : gmap string (gmap string string))
    (user_input : gmap string string) (i : string)
    (di : gmap string string) (h : string) :
  user_input !! HOSTNAME = Some h ->
  entries !! i = Some di ->
  di !! HOSTNAME = Some h ->
  async_step_user HOSTNAME (Some user_input) entries
  = (entries, Ok (ShowForm "user" "raspberrypi")).
Proof.
  intros Hin Hi Hdi.
  unfold async_step_user, try_except, bind, lift, input_subscript.
  rewrite Hin. unfold _async_abort_entries_match.
  destruct (decide _) as [|Hno]; [reflexivity|].
  exfalso; apply Hno. exists i, di. split; [exact Hi|].
  apply map_Forall_singleton. exact Hdi.
Qed.

(** Hence the first-run step keeps host names distinct. *)
Lemma async_step_user_keeps_hostnames_distinct
    (entries : gmap string (gmap string string))
    (user_input : option (gmap string string)) (new_id : string) :
  entries !! new_id = None ->
  hostnames_distinct HOSTNAME entries ->
  hostnames_distinct HOSTNAME
    (finish_flow new_id (snd (async_step_user HOSTNAME user_input entries))
                 (fst (async_step_user HOSTNAME user_input entries))).
Proof.
  intros Hfresh Hdist.
  destruct user_input as [user_input|]; [|exact Hdist].
  unfold async_step_user, try_except, bind, lift, input_subscript.
  destruct (user_input !! HOSTNAME) as [h|] eqn:Hin; [|exact Hdist].
  unfold _async_abort_entries_match.
  destruct (decide _) as [|Hno]; [exact Hdist|].
  simpl. intros i j di dj h' Hi Hj Hdi Hdj.
  assert (Hother : forall k dk, entries !! k = Some dk ->
                                dk !! HOSTNAME = Some h -> False).
  { intros k dk Hk Hdk. apply Hno. exists k, dk. split; [exact Hk|].
    apply map_Forall_singleton. exact Hdk. }
  destruct (decide (i = new_id)) as [->|Hni];
    destruct (decide (j = new_id)) as [->|Hnj]; [reflexivity| | |].
  - rewrite lookup_insert_eq in Hi. rewrite lookup_insert_ne in Hj by congruence.
    injection Hi as <-. exfalso. apply (Hother j dj Hj). congruence.
  - rewrite lookup_insert_eq in Hj. rewrite lookup_insert_ne in Hi by congruence.
    injection Hj as <-. exfalso. apply (Hother i di Hi). congruence.
  - rewrite lookup_insert_ne in Hi, Hj by congruence. eauto.
Qed.

(** The reconfigure step stores whatever is submitted. *)
Lemma async_step_reconfigure_stores_input
    (entries : gmap string (gmap string string)) (entry_id : string)
    (old_data user_input : gmap string string) :
  entries !! entry_id = Some old_data ->
  reload_raises = None ->
  async_step_reconfigure HOSTNAME reload_raises entry_id (Some user_input) entries
  = (<[entry_id := user_input]> entries, Ok (Abort "reconfigure_successful")).
Proof.
  intros Hentry ->.
  unfold async_step_reconfigure, bind, gets. rewrite Hentry. reflexivity.
Qed.

End Steps.

(** C9 (as the code behaves).  With the entries ["raspberrypi"] and
    ["kitchen"], reconfiguring the second with the host name of the first
    succeeds: the step aborts with ["reconfigure_successful"] and both
    entries now name ["raspberrypi"], so host names are no longer distinct;
    the first-run step shows its form again for the same submission. *)
Theorem reconfigure_accepts_duplicate_hostname :
  let entries : gmap string (gmap string string) :=
    {[ "entry-1" := {[ "hostname" := "raspberrypi" ]};
       "entry-2" := {[ "hostname" := "kitchen" ]} ]} in
  let user_input : gmap string string := {[ "hostname" := "raspberrypi" ]} in
  let after_step :=
    async_step_reconfigure "hostname" None "entry-2" (Some user_input) entries in
  hostnames_distinct "hostname" entries
  /\ snd after_step = Ok (Abort "reconfigure_successful")
  /\ fst after_step !! "entry-1" = Some user_input
  /\ fst after_step !! "entry-2" = Some user_input
  /\ ~ hostnames_distinct "hostname" (fst after_step)
  /\ async_step_user "hostname" (Some user_input) entries
     = (entries, Ok (ShowForm "user" "raspberrypi")).
Proof.
  intros entries user_input after_step.
  assert (Hstep : after_step
                  = (<["entry-2" := user_input]> entries,
                     Ok (Abort "reconfigure_successful"))).
  { apply async_step_reconfigure_stores_input with
      (old_data := {[ "hostname" := "kitchen" ]}); [|reflexivity].
    unfold entries. rewrite lookup_insert_ne by discriminate.
    apply lookup_singleton_eq. }
  assert (H1 : <["entry-2" := user_input]> entries !! "entry-1" = Some user_input).
  { rewrite lookup_insert_ne by discriminate.
    unfold entries. now rewrite lookup_insert_eq. }
  assert (H2 : <["entry-2" := user_input]> entries !! "entry-2" = Some user_input)
    by apply lookup_insert_eq.
  rewrite Hstep; simpl.
  split; [|split; [reflexivity|split; [exact H1|split; [exact H2|split]]]].
  - intros i j di dj h Hi Hj Hdi Hdj. unfold entries in Hi, Hj.
    apply lookup_insert_Some in Hi as [[<- <-] | [Hni Hi]];
      apply lookup_insert_Some in Hj as [[<- <-] | [Hnj Hj]];
      try reflexivity.
    + apply lookup_singleton_Some in Hj as [<- <-].
      apply lookup_singleton_Some in Hdi as [_ <-].
      apply lookup_singleton_Some in Hdj as [_ Hdj]. discriminate Hdj.
    + apply lookup_singleton_Some in Hi as [<- <-].
      apply lookup_singleton_Some in Hdi as [_ <-].
      apply lookup_singleton_Some in Hdj as [_ Hdj]. discriminate Hdj.
    + apply lookup_singleton_Some in Hi as [<- _].
      apply lookup_singleton_Some in Hj as [<- _]. reflexivity.
  - intros Hdist.
    specialize (Hdist "entry-1" "entry-2" user_input user_input "raspberrypi"
                  H1 H2 (lookup_singleton_eq _ _) (lookup_singleton_eq _ _)).
    discriminate.
  - apply async_step_user_rejects_duplicate with
      (i := "entry-1") (di := user_input) (h := "raspberrypi").
    + apply lookup_singleton_eq.
    + unfold entries. now rewrite lookup_insert_eq.
    + apply lookup_singleton_eq.
Qed.

End ConfigFlowFacts.

(** ** Further properties of the identity derivation *)

Module EntityIdMore.
Import PyStr EntityId EntityIdFacts.

Lemma append_cons c s t : String c s ++ t = String c (s ++ t).
Proof. reflexivity. Qed.

Lemma re_sub_cons_sep b s :
  re_sub_non_alnum "_" b s
  = match s with
    | EmptyString => EmptyString
    | String c r =>
        if is_alnum c then String c (re_sub_non_alnum "_" false r)
        else if b then re_sub_non_alnum "_" true r
        else String "_" (re_sub_non_alnum "_" true r)
    end.
Proof. destruct s as [|c r]; [reflexivity|]. simpl. now destruct (is_alnum c), b. Qed.

Lemma length_lower s : String.length (lower s) = String.length s.
Proof. induction s as [|c s IH]; simpl; [reflexivity | now rewrite IH]. Qed.

Lemma length_re_sub s : forall b,
  String.length (re_sub_non_alnum "_" b s) <= String.length s.
Proof.
  induction s as [|c s IH]; intros b; [simpl; lia|].
  rewrite re_sub_cons_sep. simpl String.length at 2.
  destruct (is_alnum c); [|destruct b]; simpl;
    [specialize (IH false) | specialize (IH true) | specialize (IH true)]; lia.
Qed.

(** X1.  The identifier is never longer than the string it is derived
    from. *)
Theorem generate_entity_id_length :
  forall line : string,
    String.length (generate_entity_id line) <= String.length line.
Proof.
  intros line. unfold generate_entity_id.
  rewrite length_lower. apply length_re_sub.
Qed.

Lemma is_sep_lower_char c : is_sep (lower_char c) = is_sep c.
Proof. destruct c as [[] [] [] [] [] [] [] []]; reflexivity. Qed.

Lemma no_double_sep_lower s : no_double_sep (lower s) = no_double_sep s.
Proof.
  induction s as [|c s IH]; [reflexivity|].
  simpl lower. simpl no_double_sep. rewrite IH. f_equal.
  destruct s as [|c' s]; [reflexivity|]. simpl.
  now rewrite !is_sep_lower_char.
Qed.

(** Inside a run no separator is written first; after the substitution no
    two separators touch. *)
Lemma re_sub_no_double_sep s : forall b,
  no_double_sep (re_sub_non_alnum "_" b s) = true
  /\ (b = true ->
      match re_sub_non_alnum "_" b s with
      | String c _ => is_sep c
      | EmptyString => false
      end = false).
Proof.
  induction s as [|c s IH]; intros b; [now split|].
  rewrite re_sub_cons_sep.
  destruct (is_alnum c) eqn:Hc.
  - destruct (IH false) as [Hn _]. split.
    + simpl. rewrite Hn, andb_true_r.
      destruct (re_sub_non_alnum "_" false s) as [|c' r]; [reflexivity|].
      assert (Hs : is_sep c = false)
        by (revert Hc; destruct c as [[] [] [] [] [] [] [] []]; vm_compute; congruence).
      now rewrite Hs.
    + intros _. revert Hc.
      destruct c as [[] [] [] [] [] [] [] []]; vm_compute; congruence.
  - destruct (IH true) as [Hn Hstart]. specialize (Hstart eq_refl).
    destruct b; [now split|]. split; [|discriminate].
    simpl. rewrite Hn, andb_true_r.
    destruct (re_sub_non_alnum "_" true s) as [|c' r]; [reflexivity|].
    now rewrite Hstart.
Qed.

(** X2.  In an identifier no separator is followed at once by another
    separator, whatever the input (underscores of the input included). *)
Theorem generate_entity_id_no_double_separator :
  forall line : string, no_double_sep (generate_entity_id line) = true.
Proof.
  intros line. unfold generate_entity_id.
  rewrite no_double_sep_lower. apply re_sub_no_double_sep.
Qed.

(** X3.  The identifier does not see the case of ASCII letters: a string and
    its lower-case form get the same identifier. *)
Theorem generate_entity_id_case_insensitive :
  forall line : string,
    generate_entity_id (lower line) = generate_entity_id line.
Proof.
  intros line. unfold generate_entity_id.
  now rewrite re_sub_lower, lower_idem.
Qed.

Lemma re_sub_app s t : forall b,
  re_sub_non_alnum "_" b (s ++ t)
  = re_sub_non_alnum "_" b s ++ re_sub_non_alnum "_" (ends_in_run b s) t.
Proof.
  induction s as [|c s IH]; intros b; [reflexivity|].
  rewrite append_cons, (re_sub_cons_sep b (String c (s ++ t))),
    (re_sub_cons_sep b (String c s)).
  simpl ends_in_run.
  destruct (is_alnum c); simpl negb; [|destruct b]; rewrite IH; reflexivity.
Qed.

End EntityIdMore.

(** ** Further properties of the media-player entity *)

Module MediaPlayerMore.
Import Py PyStr EntityId MediaPlayer EntityIdFacts EntityIdMore.

(** X4.  The unique id of the entity is its device id followed by
    ["_media_player"]; when the host name ends with a character that is
    neither a letter nor a digit, the separator is already there and only
    ["media_player"] follows. *)
Theorem unique_id_extends_device_id :
  forall hostname : string,
    attrs (init hostname) !! "_attr_unique_id"
    = Some (VStr (device_id (init hostname)
                  ++ (if ends_in_run false hostname
                      then "media_player" else "_media_player"))).
Proof.
  intros hostname. unfold init, device_id; simpl attrs; simpl MediaPlayer.hostname.
  rewrite lookup_insert_eq. do 2 f_equal.
  unfold generate_entity_id. rewrite re_sub_app, lower_app. f_equal.
  destruct (ends_in_run false hostname); reflexivity.
Qed.

(** *** The state fetch *)

Ltac expose_update :=
  cbv beta iota zeta delta
    [update_states async_update try_except bind gets issue copy_field setattr
     log_error modify lift ret subscript fst snd hostname attrs sent logged].

Ltac use_keys items :=
  repeat match goal with
         | H : dict_get ?k items = _ |- context [dict_get ?k items] =>
             rewrite H; cbv beta iota
         end.

(** X5.  When the decoded body is an object holding all eleven keys,
    [update_states] completes, every attribute of [state_fields] holds the
    value found under its key, no other attribute changes, and the one
    request issued is the GET of [/api/state] with timeout 1. *)
Theorem update_states_copies_every_field :
  forall (items : list (string * pyval)) (self : PiAssistantMediaPlayer),
    (forall attr key, In (attr, key) state_fields ->
                      dict_get key items <> None) ->
    let self' := fst (update_states (Ok (VDict items)) self) in
    snd (update_states (Ok (VDict items)) self) = Ok tt
    /\ (forall attr key, In (attr, key) state_fields ->
          attrs self' !! attr = dict_get key items)
    /\ (forall name : string,
          (forall key, ~ In (name, key) state_fields) ->
          attrs self' !! name = attrs self !! name)
    /\ sent self'
       = (sent self ++ [HttpGet ("http://" ++ hostname self ++ "/api/state") 1])%list.
Proof.
  intros items self Hall.
  assert (Hkey : forall attr key, In (attr, key) state_fields ->
                                  exists v, dict_get key items = Some v).
  { intros attr key Hin. specialize (Hall attr key Hin).
    destruct (dict_get key items) as [v|]; [now exists v | congruence]. }
  destruct (Hkey _ "state" ltac:(simpl; tauto)) as [v1 H1].
  destruct (Hkey _ "is_volume_muted" ltac:(simpl; tauto)) as [v2 H2].
  destruct (Hkey _ "media_duration" ltac:(simpl; tauto)) as [v3 H3].
  destruct (Hkey _ "media_content_type" ltac:(simpl; tauto)) as [v4 H4].
  destruct (Hkey _ "media_position" ltac:(simpl; tauto)) as [v5 H5].
  destruct (Hkey _ "media_position_updated_at" ltac:(simpl; tauto)) as [v6 H6].
  destruct (Hkey _ "repeat" ltac:(simpl; tauto)) as [v7 H7].
  destruct (Hkey _ "shuffle" ltac:(simpl; tauto)) as [v8 H8].
  destruct (Hkey _ "source" ltac:(simpl; tauto)) as [v9 H9].
  destruct (Hkey _ "volume_level" ltac:(simpl; tauto)) as [v10 H10].
  destruct (Hkey _ "volume_step" ltac:(simpl; tauto)) as [v11 H11].
  clear Hkey Hall. cbv zeta.
  split; [|split; [|split]].
  - expose_update. use_keys items. reflexivity.
  - intros attr key Hin. expose_update. use_keys items.
    simpl in Hin.
    repeat (destruct Hin as [[= <- <-] | Hin];
            [ rewrite ?H1, ?H2, ?H3, ?H4, ?H5, ?H6, ?H7, ?H8, ?H9, ?H10, ?H11;
              repeat (rewrite lookup_insert_ne by discriminate);
              apply lookup_insert_eq |]).
    destruct Hin.
  - intros name Hname. expose_update. use_keys items.
    repeat (rewrite lookup_insert_ne;
            [| intros <-; eapply Hname; simpl; tauto ]).
    reflexivity.
  - expose_update. use_keys items. reflexivity.
Qed.

(** X5, an instance: the idle device. *)
Lemma update_states_copies_every_field_witness :
  attrs (fst (update_states (Ok (VDict idle_state_body)) (init "raspberrypi")))
    !! "_attr_volume_level"
  = Some (VFloat (1 # 2)).
Proof.
  refine (proj1 (proj2 (update_states_copies_every_field idle_state_body
                          (init "raspberrypi") _))
            "_attr_volume_level" "volume_level" _).
  - intros attr key Hin. simpl in Hin.
    repeat (destruct Hin as [[= <- <-] | Hin]; [discriminate|]).
    destruct Hin.
  - simpl. tauto.
Defined.

(** X6.  The update is not atomic: when the body has ["state"] but lacks
    ["is_volume_muted"], [update_states] raises [KeyError] and the new
    [state] stays written. *)
Theorem update_states_keeps_partial_update :
  forall (items : list (string * pyval)) (v : pyval)
         (self : PiAssistantMediaPlayer),
    dict_get "state" items = Some v ->
    dict_get "is_volume_muted" items = None ->
    snd (update_states (Ok (VDict items)) self)
    = Raise (KeyError "is_volume_muted")
    /\ attrs (fst (update_states (Ok (VDict items)) self))
       = <["state" := v]> (attrs self).
Proof.
  intros items v self H1 H2.
  split; expose_update; use_keys items; reflexivity.
Qed.

(** X6, an instance. *)
Lemma update_states_keeps_partial_update_witness :
  attrs (fst (update_states (Ok (VDict [("state", VStr "playing")]))
                (init "raspberrypi"))) !! "state"
  = Some (VStr "playing").
Proof.
  rewrite (proj2 (update_states_keeps_partial_update
                    [("state", VStr "playing")] (VStr "playing")
                    (init "raspberrypi") eq_refl eq_refl)).
  apply lookup_insert_eq.
Defined.

(** X7.  A body that is not an object, or an object without ["state"],
    makes [update_states] raise ([TypeError], [KeyError]) before any
    attribute is written. *)
Theorem update_states_rejects_malformed_body :
  forall (body : pyval) (self : PiAssistantMediaPlayer),
    (forall v, subscript body "state" <> Ok v) ->
    (exists x, snd (update_states (Ok body) self) = Raise x
               /\ subscript body "state" = Raise x
               /\ is_TimeoutError x = false)
    /\ attrs (fst (update_states (Ok body) self)) = attrs self.
Proof.
  intros body self Hbad.
  assert (Hx : exists x, subscript body "state" = Raise x
                         /\ is_TimeoutError x = false).
  { unfold subscript in *. destruct body; try (now exists TypeError).
    destruct (dict_get "state" items) as [v|]; [now destruct (Hbad v)|].
    now exists (KeyError "state"). }
  destruct Hx as (x & Hx & Ht).
  assert (Hrun : update_states (Ok body) self
                 = ({| hostname := hostname self; attrs := attrs self;
                       sent := (sent self
                                ++ [HttpGet ("http://" ++ hostname self ++ "/api/state") 1])%list;
                       logged := logged self |}, Raise x)).
  { unfold update_states, try_except, bind, gets, issue, modify, lift,
      copy_field; simpl.
    rewrite Hx. simpl. now rewrite Ht. }
  rewrite Hrun. split; [|reflexivity]. now exists x.
Qed.

(** X7, an instance: the device answers with [null]. *)
Lemma update_states_rejects_malformed_body_witness :
  attrs (fst (update_states (Ok VNone) (init "raspberrypi")))
  = attrs (init "raspberrypi").
Proof.
  apply (update_states_rejects_malformed_body VNone (init "raspberrypi")).
  intros v; discriminate.
Defined.

Ltac split_subscripts :=
  repeat match goal with
         | |- context [dict_get ?k ?items] =>
             destruct (dict_get k items); cbv beta iota
         end.

(** Whatever the response, the state fetch issues one GET and touches
    neither the host name nor the log. *)
Lemma update_states_frame (response : res pyval) (self : PiAssistantMediaPlayer) :
  let self' := fst (update_states response self) in
  hostname self' = hostname self
  /\ sent self' = (sent self ++ [HttpGet ("http://" ++ hostname self ++ "/api/state") 1])%list
  /\ logged self' = logged self
  /\ match snd (update_states response self) with
     | Ok _ => True
     | Raise x => is_TimeoutError x = false
     end.
Proof.
  cbv zeta. destruct response as [body | x].
  - destruct body; try (expose_update; repeat split; reflexivity).
    expose_update. split_subscripts. all: repeat split; reflexivity.
  - rewrite MediaPlayerFacts.update_states_raise.
    destruct (is_TimeoutError x) eqn:Hx; simpl; repeat split; assumption.
Qed.

(** X8.  [async_update] never raises, whatever the request does and whatever
    the body holds; it always issues exactly the one GET, keeps the host
    name, and writes a line to the error log exactly when [update_states]
    raised. *)
Theorem async_update_never_raises :
  forall (response : res pyval) (self : PiAssistantMediaPlayer),
    let self' := fst (async_update response self) in
    snd (async_update response self) = Ok tt
    /\ hostname self' = hostname self
    /\ sent self'
       = (sent self ++ [HttpGet ("http://" ++ hostname self ++ "/api/state") 1])%list
    /\ logged self'
       = match snd (update_states response self) with
         | Ok _ => logged self
         | Raise _ => (logged self ++ ["ERROR async_update()"])%list
         end.
Proof.
  intros response self. cbv zeta.
  destruct (update_states_frame response self) as (Hh & Hs & Hl & _).
  unfold async_update, try_except, log_error, modify.
  destruct (update_states response self) as [self1 [[] | x]]; simpl in *;
    rewrite ?Hh, ?Hs, ?Hl; repeat split; reflexivity.
Qed.

(** *** Commands *)

Lemma send_command_cases command args response self :
  let posted :=
    (sent self
     ++ [HttpPost ("http://" ++ hostname self ++ "/api/command/" ++ command)
                  args 1])%list in
  send_command command args response self
  = match match response with
          | Ok body => subscript body "success"
          | Raise x => Raise x
          end with
    | Ok v =>
        ({| hostname := hostname self; attrs := attrs self;
            sent := posted; logged := logged self |}, Ok v)
    | Raise x =>
        if is_TimeoutError x
        then ({| hostname := hostname self;
                 attrs := <["state" := VStr "unavailable"]> (attrs self);
                 sent := posted; logged := logged self |}, Ok (VBool false))
        else ({| hostname := hostname self; attrs := attrs self;
                 sent := posted; logged := logged self |}, Raise x)
    end.
Proof.
  cbv zeta.
  unfold send_command, try_except, bind, gets, issue, modify, lift, setattr, ret;
    simpl.
  destruct response as [body | x]; simpl.
  - destruct (subscript body "success") as [v | x]; simpl; [reflexivity|].
    destruct (is_TimeoutError x); reflexivity.
  - destruct (is_TimeoutError x); reflexivity.
Qed.

(** X9.  When the device answers with an object holding ["success"],
    [send_command] returns that value as it is and changes no attribute; the
    one request issued is the POST of the command with the given arguments
    and timeout 1. *)
Theorem send_command_returns_success_field :
  forall command args body v (self : PiAssistantMediaPlayer),
    subscript body "success" = Ok v ->
    send_command command args (Ok body) self
    = ({| hostname := hostname self;
          attrs := attrs self;
          sent := (sent self
                   ++ [HttpPost ("http://" ++ hostname self
                                 ++ "/api/command/" ++ command) args 1])%list;
          logged := logged self |}, Ok v).
Proof.
  intros command args body v self Hv.
  rewrite send_command_cases. cbv zeta. now rewrite Hv.
Qed.

(** X9, an instance: the device reports a failure. *)
Lemma send_command_returns_success_field_witness :
  snd (send_command "media_stop" (VDict [])
         (Ok (VDict [("success", VBool false)])) (init "raspberrypi"))
  = Ok (VBool false).
Proof.
  now rewrite (send_command_returns_success_field "media_stop" (VDict [])
                 (VDict [("success", VBool false)]) (VBool false)
                 (init "raspberrypi") eq_refl).
Defined.

(** X10.  After the built-in [TimeoutError], [send_command] raises nothing,
    returns [False] and sets [state] to ["unavailable"]; every other failure
    of the request, and an answer without ["success"], is raised to the
    caller with no attribute changed. *)
Theorem send_command_failures :
  forall command args (self : PiAssistantMediaPlayer),
    (snd (send_command command args (Raise TimeoutError) self) = Ok (VBool false)
     /\ attrs (fst (send_command command args (Raise TimeoutError) self))
        = <["state" := VStr "unavailable"]> (attrs self))
    /\ (forall x, is_TimeoutError x = false ->
          snd (send_command command args (Raise x) self) = Raise x
          /\ attrs (fst (send_command command args (Raise x) self)) = attrs self)
    /\ (forall items, dict_get "success" items = None ->
          snd (send_command command args (Ok (VDict items)) self)
          = Raise (KeyError "success")
          /\ attrs (fst (send_command command args (Ok (VDict items)) self))
             = attrs self).
Proof.
  intros command args self. split; [|split].
  - rewrite send_command_cases. split; reflexivity.
  - intros x Hx. rewrite send_command_cases. cbv zeta. rewrite Hx.
    split; reflexivity.
  - intros items Hnone. rewrite send_command_cases. cbv zeta.
    unfold subscript. rewrite Hnone. split; reflexivity.
Qed.

(** X11.  [async_send_command] never raises: it returns what [send_command]
    returns, and [None], with a line in the error log, when [send_command]
    raised. *)
Theorem async_send_command_never_raises :
  forall command args response (self : PiAssistantMediaPlayer),
    match snd (send_command command args response self) with
    | Ok v =>
        async_send_command command args response self
        = send_command command args response self
    | Raise x =>
        snd (async_send_command command args response self) = Ok VNone
        /\ logged (fst (async_send_command command args response self))
           = (logged self ++ ["ERROR async_send_command()"])%list
    end.
Proof.
  intros command args response self.
  unfold async_send_command, try_except.
  pose proof (send_command_cases command args response self) as Hc.
  cbv zeta in Hc.
  destruct (send_command command args response self) as [self1 [v | x]];
    simpl; [reflexivity|].
  split; [reflexivity|].
  destruct (match response with Ok body => subscript body "success"
                              | Raise x0 => Raise x0 end) as [v | y];
    [discriminate|].
  destruct (is_TimeoutError y); [discriminate|].
  injection Hc as -> _. reflexivity.
Qed.

(** X12.  The five control methods pass on what [send_command] does: they
    return [None] when it returns and raise what it raises, and none of them
    changes an attribute other than [state]. *)
Theorem control_methods_pass_on_send_command :
  forall (response : res pyval) (self : PiAssistantMediaPlayer)
         (volume : pyval) (mute : bool),
    let passes (method : M PiAssistantMediaPlayer unit) command args :=
      snd (method self)
      = match snd (send_command command args response self) with
        | Ok _ => Ok tt
        | Raise x => Raise x
        end
      /\ fst (method self) = fst (send_command command args response self)
      /\ forall name : string, name <> "state" ->
           attrs (fst (method self)) !! name = attrs self !! name in
    passes (set_volume_level volume response) "set_volume"
           (VDict [("volume", volume)])
    /\ passes (media_pause response) "media_pause" (VDict [])
    /\ passes (media_play response) "media_play" (VDict [])
    /\ passes (media_stop response) "media_stop" (VDict [])
    /\ passes (mute_volume mute response) "volume_mute" (VDict []).
Proof.
  intros response self volume mute.
  assert (H : forall command args,
             let method := bind (send_command command args response)
                                (fun _ => ret tt) in
             snd (method self)
             = match snd (send_command command args response self) with
               | Ok _ => Ok tt
               | Raise x => Raise x
               end
             /\ fst (method self) = fst (send_command command args response self)
             /\ forall name : string, name <> "state" ->
                  attrs (fst (method self)) !! name = attrs self !! name).
  { intros command args. cbv zeta. unfold bind, ret.
    rewrite send_command_cases. cbv zeta.
    destruct (match response with Ok body => subscript body "success"
                                | Raise x => Raise x end) as [v | x];
      [|destruct (is_TimeoutError x)]; simpl; repeat split;
      intros name Hname; try reflexivity.
    now apply lookup_insert_ne. }
  cbv zeta. repeat apply conj; try apply H.
Qed.

(** X13.  [async_play_media]: when the media id is a media-source id whose
    resolution raises, the exception reaches the caller and nothing is sent;
    otherwise the call never raises, whatever the device answers, and sends
    one [play_media] command whose [url] is the processed URL of the resolved
    media (of the media id itself when it is no media-source id).  The media
    type plays no part. *)
Theorem async_play_media_sends_processed_url :
  forall (is_source : string -> bool) (resolve : string -> res string)
         (process : string -> string) (media_type media_id : string)
         (response : res pyval) (self : PiAssistantMediaPlayer),
    let resolved := if is_source media_id then resolve media_id else Ok media_id in
    let r := async_play_media is_source resolve process media_type media_id
               response self in
    match resolved with
    | Raise x => r = (self, Raise x)
    | Ok url =>
        snd r = Ok tt
        /\ sent (fst r)
           = (sent self
              ++ [HttpPost ("http://" ++ hostname self ++ "/api/command/play_media")
                           (VDict [("url", VStr (process url))]) 1])%list
    end.
Proof.
  intros is_source resolve process media_type media_id response self.
  cbv zeta. unfold async_play_media, bind.
  assert (Hsend : forall url,
             let c := async_send_command "play_media"
                        (VDict [("url", VStr (process url))]) response self in
             (exists v, snd c = Ok v)
             /\ sent (fst c)
                = (sent self
                   ++ [HttpPost ("http://" ++ hostname self
                                 ++ "/api/command/play_media")
                                (VDict [("url", VStr (process url))]) 1])%list).
  { intros url. cbv zeta. unfold async_send_command, try_except.
    rewrite send_command_cases. cbv zeta.
    destruct (match response with Ok body => subscript body "success"
                                | Raise x => Raise x end) as [v | x];
      [|destruct (is_TimeoutError x)]; simpl; split; eauto. }
  assert (Hgoal : forall url,
             let r := (let (s', r) :=
                         async_send_command "play_media"
                           (VDict [("url", VStr (process url))]) response self in
                       match r with
                       | Ok _ => ret tt s'
                       | Raise x => (s', Raise x)
                       end) in
             snd r = Ok tt
             /\ sent (fst r)
                = (sent self
                   ++ [HttpPost ("http://" ++ hostname self
                                 ++ "/api/command/play_media")
                                (VDict [("url", VStr (process url))]) 1])%list).
  { intros url. destruct (Hsend url) as [[v Hv] Hs]. cbv zeta in *.
    destruct (async_send_command "play_media"
                (VDict [("url", VStr (process url))]) response self)
      as [self1 [v' | x]]; simpl in *; [now split | discriminate]. }
  destruct (is_source media_id).
  - unfold lift. destruct (resolve media_id) as [url | x]; [|reflexivity].
    exact (Hgoal url).
  - exact (Hgoal media_id).
Qed.

End MediaPlayerMore.

(** ** Further properties of the pipeline driver *)

Module VoiceAssistantMore.
Import Py VoiceAssistant VoiceAssistantFacts.
Local Open Scope list_scope.

Ltac expose_all :=
  cbv beta iota zeta delta
    [callback_actions callback_result completes reports_error unblocks
     _event_callback translate entity_play_media handle_event handle_finished
     assert_not_none subscript bind lift ret raise type data].

Ltac case_step_with pm :=
  match goal with
  | |- context [dict_get ?k ?items] =>
      is_var items; destruct (dict_get k items) eqn:?
  | |- context [truthy ?v] => is_var v; destruct (truthy v) eqn:?
  | |- context [match ?d with VNone => _ | _ => _ end] => is_var d; destruct d
  | |- context [match pm with Some _ => _ | None => _ end] => destruct pm
  end.

Ltac event_cases pm e :=
  let t := fresh "t" in
  let d := fresh "d" in
  destruct e as [t d]; destruct t; expose_all;
  repeat (case_step_with pm; expose_all).

(** X14.  One stage event gives at most one call of [handle_event]: exactly
    one when the handling completes, none when it raises. *)
Theorem handle_event_once_per_completed_event :
  forall pm (e : PipelineEvent),
    length (events_sent (callback_actions pm e))
    = if completes pm e then 1 else 0.
Proof. intros pm e. event_cases pm e; cbv; reflexivity. Qed.

(** X15.  The kind handed to [handle_event] is the kind of the stage event,
    except for a [WAKE_WORD_END] without a wake word, which is handed on as
    [ERROR] with the code ["no_wake_word"]. *)
Theorem forwarded_kind :
  forall pm (e : PipelineEvent) t d,
    In (HandleEvent t d) (callback_actions pm e) ->
    t = type e
    \/ (type e = WAKE_WORD_END /\ t = ERROR
        /\ d = VDict [("code", VStr "no_wake_word");
                      ("message", VStr "No wake word detected")]).
Proof.
  intros pm e t d. event_cases pm e; cbv; intros H;
    repeat (destruct H as [[= <- <-] | H]; auto; try discriminate);
    try destruct H; auto.
Qed.

(** X15, an instance: no wake word. *)
Lemma forwarded_kind_witness :
  ERROR = type (wake_word_end VNone)
  \/ (type (wake_word_end VNone) = WAKE_WORD_END /\ ERROR = ERROR
      /\ VDict [("code", VStr "no_wake_word");
                ("message", VStr "No wake word detected")]
         = VDict [("code", VStr "no_wake_word");
                  ("message", VStr "No wake word detected")]).
Proof.
  apply (forwarded_kind None (wake_word_end VNone)).
  left. reflexivity.
Defined.

(** X16.  The media player is only ever asked to play from a [TTS_END] event
    with a non-empty output, with the media type ["url"] and the [url] of
    that output. *)
Theorem play_only_for_synthesized_output :
  forall pm (e : PipelineEvent) media_type media_id,
    In (EntityPlayMedia media_type media_id) (callback_actions pm e) ->
    type e = TTS_END /\ media_type = "url"%string
    /\ exists out, subscript (data e) "tts_output" = Ok out
                   /\ truthy out = true
                   /\ subscript out "url" = Ok media_id.
Proof.
  intros pm e media_type media_id. destruct e as [t d].
  destruct t; expose_all.
  all: try (repeat (case_step_with pm; expose_all); cbv; intros H;
            repeat (destruct H as [H | H]; try discriminate H); now destruct H).
  destruct d; try (cbv; intros []).
  destruct (dict_get "tts_output" items) as [out|] eqn:Hout; cbv beta iota;
    [|cbv; intros []].
  destruct (truthy out) eqn:Htruthy; cbv beta iota;
    [|cbv; intros [H | [H | []]]; discriminate H].
  destruct out as [ | | | | | items']; try (cbv; intros []).
  destruct (dict_get "url" items') as [u|] eqn:Hu; cbv beta iota;
    [|cbv; intros []].
  intros H.
  assert (Hplay : EntityPlayMedia "url" u = EntityPlayMedia media_type media_id).
  { destruct pm; cbv in H.
    - destruct H as [H | []]; exact H.
    - destruct H as [H | [H | []]]; [exact H | discriminate H]. }
  injection Hplay as <- <-.
  split; [reflexivity|]. split; [reflexivity|].
  exists (VDict items'). cbv [subscript data]. rewrite ?Hout, ?Hu. auto.
Qed.

(** X16, an instance. *)
Lemma play_only_for_synthesized_output_witness :
  type (tts_end (VDict [("url", VStr "/api/tts_proxy/reply.mp3")])) = TTS_END.
Proof.
  apply (play_only_for_synthesized_output None
           (tts_end (VDict [("url", VStr "/api/tts_proxy/reply.mp3")]))
           "url" (VStr "/api/tts_proxy/reply.mp3")).
  left. reflexivity.
Defined.

(** X17.  A stage event of a kind whose payload the handler reads, arriving
    with [data] equal to [None], fails the assertion before anything is
    done: no callback is called and the signal is not set. *)
Theorem missing_payload_fails_assertion :
  forall pm (t : PipelineEventType),
    t <> STT_START ->
    (forall name, t <> OTHER_EVENT name) ->
    callback_actions pm {| type := t; data := VNone |} = []
    /\ callback_result pm {| type := t; data := VNone |} = Raise AssertionError.
Proof.
  intros pm t Hstart Hother.
  destruct t; try (split; reflexivity); [congruence | now destruct (Hother name)].
Qed.

(** X17, an instance. *)
Lemma missing_payload_fails_assertion_witness :
  callback_result None {| type := TTS_END; data := VNone |} = Raise AssertionError.
Proof.
  apply (missing_payload_fails_assertion None TTS_END); discriminate.
Defined.

(** X18.  An [ERROR] stage event with a code and a message is handed on with
    exactly these two fields; then the signal is set and the terminal
    callback is called, in this order. *)
Theorem error_event_is_reported_then_finished :
  forall pm (d code message : pyval),
    subscript d "code" = Ok code ->
    subscript d "message" = Ok message ->
    callback_actions pm {| type := ERROR; data := d |}
    = [HandleEvent ERROR (VDict [("code", code); ("message", message)]);
       TtsDoneSet; HandleFinished]
    /\ callback_result pm {| type := ERROR; data := d |} = Ok tt.
Proof.
  intros pm d code message Hc Hm.
  apply subscript_ok in Hc as (items & -> & Hc).
  apply subscript_ok in Hm as (items' & [= <-] & Hm).
  expose_all. rewrite Hc, Hm. split; reflexivity.
Qed.

(** X18, an instance. *)
Lemma error_event_is_reported_then_finished_witness :
  callback_actions None (error_event (VStr "stt-no-text") (VStr "no speech"))
  = [HandleEvent ERROR (VDict [("code", VStr "stt-no-text");
                               ("message", VStr "no speech")]);
     TtsDoneSet; HandleFinished].
Proof.
  apply (error_event_is_reported_then_finished None _ (VStr "stt-no-text")
           (VStr "no speech")); reflexivity.
Defined.

(** X19.  A [WAKE_WORD_END] event whose output is empty is reported as an
    [ERROR] with code ["no_wake_word"], after which the signal is set and
    the terminal callback is called; with a wake word the event is handed on
    without payload and nothing else happens. *)
Theorem wake_word_end_translation :
  forall pm (d out : pyval),
    subscript d "wake_word_output" = Ok out ->
    callback_actions pm {| type := WAKE_WORD_END; data := d |}
    = (if truthy out
       then [HandleEvent WAKE_WORD_END VNone]
       else [HandleEvent ERROR
               (VDict [("code", VStr "no_wake_word");
                       ("message", VStr "No wake word detected")]);
             TtsDoneSet; HandleFinished])
    /\ callback_result pm {| type := WAKE_WORD_END; data := d |} = Ok tt.
Proof.
  intros pm d out Hout.
  apply subscript_ok in Hout as (items & -> & Hout).
  expose_all. rewrite Hout. cbv beta iota.
  destruct (truthy out); split; reflexivity.
Qed.

(** X19, an instance: the wake-word stage ends without a detection. *)
Lemma wake_word_end_translation_witness :
  events_sent (callback_actions None (wake_word_end VNone))
  = [(ERROR, VDict [("code", VStr "no_wake_word");
                    ("message", VStr "No wake word detected")])].
Proof.
  unfold wake_word_end.
  rewrite (proj1 (wake_word_end_translation None
                    (VDict [("wake_word_output", VNone)]) VNone eq_refl)).
  reflexivity.
Defined.

(** An event whose handling raises is the last one received, and its
    exception is the one that leaves the call of the staged pipeline. *)
Lemma received_raising_event pm p e :
  In e (received pm p) ->
  completes pm e = false ->
  pipeline_result pm p = callback_result pm e.
Proof.
  induction p as [| x | e' p IH]; [intros [] | intros [] |].
  simpl received. rewrite pipeline_result_emit. intros [-> | Hin] Hc.
  - now rewrite Hc.
  - destruct (completes pm e'); [now apply IH | destruct Hin].
Qed.

(** X20.  A run in which the handler receives an [STT_START] event ends
    there: [run_pipeline] raises the [AttributeError] of the handler to its
    caller, after the terminal callback of the [finally] clause. *)
Theorem run_ends_at_stt_start :
  forall pm p (e : PipelineEvent),
    In e (received pm p) ->
    type e = STT_START ->
    snd (run_pipeline pm p init) = Raised (AttributeError "is_running")
    /\ last (trace (fst (run_pipeline pm p init))) = Some HandleFinished
    /\ last (received pm p) = Some e.
Proof.
  intros pm p e Hin Ht.
  assert (Hres : callback_result pm e = Raise (AttributeError "is_running"))
    by (destruct e as [t d]; simpl in Ht; subst t; reflexivity).
  assert (Hc : completes pm e = false) by (unfold completes; now rewrite Hres).
  pose proof (received_raising_event pm p e Hin Hc) as Hp.
  rewrite Hres in Hp.
  split; [|split].
  - rewrite run_pipeline_spec, Hp. reflexivity.
  - rewrite run_pipeline_spec, Hp. cbv zeta. simpl fst.
    rewrite trace_after. simpl trace. rewrite app_comm_cons. apply last_snoc.
  - clear Hp Hres Ht. induction p as [| x | e' p IH]; [destruct Hin..|].
    simpl received in *. destruct Hin as [-> | Hin].
    + now rewrite Hc.
    + destruct (completes pm e'); [|destruct Hin].
      specialize (IH Hin). destruct (received pm p); [discriminate | exact IH].
Qed.

(** X20, an instance: the run of all stages. *)
Lemma run_ends_at_stt_start_witness :
  snd (run_pipeline None
         (stages_with_stt_start (VStr "hey_pi") (VStr "turn on the light")
            (VStr "conv-1") (VStr "Done")
            (VDict [("url", VStr "/api/tts_proxy/reply.mp3")])) init)
  = Raised (AttributeError "is_running").
Proof.
  apply (run_ends_at_stt_start None _ stt_start).
  - right. left. reflexivity.
  - reflexivity.
Defined.

Lemma events_sent_app a b :
  events_sent (a ++ b) = events_sent a ++ events_sent b.
Proof.
  induction a as [|x a IH]; [reflexivity|].
  destruct x; simpl; now rewrite IH.
Qed.

(** X21.  When an exception leaves the call of the staged pipeline,
    [run_pipeline] swallows [PipelineNotFound], [WakeWordDetectionAborted]
    and [WakeWordDetectionError] and returns; every other exception is
    raised again to the caller.  Beyond the events of the handler it reports
    one [ERROR] event for [PipelineNotFound] (with the fixed code
    ["pipeline not found"]) and for [WakeWordDetectionError] (with the code
    and message of the exception), none otherwise; and it calls the terminal
    callback once more than the handler did. *)
Theorem exceptions_of_the_staged_pipeline :
  forall pm p x,
    pipeline_result pm p = Raise x ->
    let r := run_pipeline pm p init in
    snd r = (if swallowed x then Returned else Raised x)
    /\ events_sent (trace (fst r))
       = events_sent (pipeline_actions pm p) ++ reported x
    /\ finished_count (trace (fst r))
       = finished_count (pipeline_actions pm p) + 1
    /\ last (trace (fst r)) = Some HandleFinished.
Proof.
  intros pm p x Hx. cbv zeta.
  pose proof (run_pipeline_spec pm p init) as Hspec.
  rewrite Hx in Hspec. cbv zeta in Hspec.
  assert (Hshape : exists t,
             trace (fst (run_pipeline pm p init))
             = [Log "debug" "Starting pipeline"] ++ pipeline_actions pm p
               ++ t ++ [HandleFinished]
             /\ events_sent t = reported x
             /\ finished_count t = 0
             /\ snd (run_pipeline pm p init)
                = (if swallowed x then Returned else Raised x)).
  { destruct x; rewrite Hspec; simpl fst; simpl snd; rewrite trace_after;
      simpl trace;
      first [ exists []; repeat split; reflexivity
            | eexists [_]; repeat split; reflexivity
            | eexists [_; _]; repeat split; reflexivity ]. }
  destruct Hshape as (t & Htr & Hev & Hfin & Hout).
  rewrite Htr, Hout. split; [reflexivity|]. split; [|split].
  - rewrite !events_sent_app, Hev. simpl. now rewrite app_nil_r.
  - rewrite !finished_count_app, Hfin. reflexivity.
  - rewrite !app_assoc. apply last_snoc.
Qed.

(** X21, an instance: the selected pipeline does not exist. *)
Lemma exceptions_of_the_staged_pipeline_witness :
  events_sent (trace (fst (run_pipeline None (Throw PipelineNotFound) init)))
  = [(ERROR, VDict [("code", VStr "pipeline not found");
                    ("message", VStr "Selected pipeline not found")])].
Proof.
  apply (exceptions_of_the_staged_pipeline None (Throw PipelineNotFound)
           PipelineNotFound eq_refl).
Defined.

Lemma callback_sets_iff_unblocks pm e :
  existsb is_set (callback_actions pm e) = completes pm e && unblocks e.
Proof. event_cases pm e; cbv; reflexivity. Qed.

Lemma pipeline_sets_iff_unblocks pm p :
  existsb is_set (pipeline_actions pm p) = existsb unblocks (handled pm p).
Proof.
  induction p as [| x | e p IH]; try reflexivity.
  rewrite pipeline_actions_emit, existsb_app, callback_sets_iff_unblocks.
  simpl handled. destruct (completes pm e); simpl; [now rewrite IH | reflexivity].
Qed.

(** X22.  A run on a fresh object stays blocked in the wait exactly when the
    call of the staged pipeline returned and no handled stage event was
    turned into an error or was a [TTS_END] without output. *)
Theorem run_blocked_iff :
  forall pm p,
    snd (run_pipeline pm p init) = Blocked
    <-> pipeline_returns pm p = true
        /\ existsb unblocks (handled pm p) = false.
Proof.
  intros pm p. rewrite <- pipeline_sets_iff_unblocks.
  rewrite run_pipeline_spec. unfold pipeline_returns. cbv zeta.
  change (_tts_done init) with false. rewrite orb_false_l.
  destruct (pipeline_result pm p) as [[] | x].
  - destruct (existsb is_set (pipeline_actions pm p)); simpl; split;
      try tauto; try discriminate; intros [_ H]; discriminate H.
  - destruct x; simpl; split; try discriminate; intros [H _]; discriminate H.
Qed.

(** X23.  The signal is never cleared and the trace never shrinks: a run on
    an object whose signal is already set, as after an earlier run, does
    not wait; it ends with the terminal callback. *)
Theorem signal_is_never_cleared :
  forall pm p (self : VoiceAssistantPipeline),
    let r := run_pipeline pm p self in
    (exists acts, trace (fst r) = trace self ++ acts)
    /\ (_tts_done self = true ->
        _tts_done (fst r) = true
        /\ snd r <> Blocked
        /\ last (trace (fst r)) = Some HandleFinished).
Proof.
  intros pm p self. cbv zeta.
  assert (Hshape : exists acts,
             fst (run_pipeline pm p self) = after acts self
             /\ (snd (run_pipeline pm p self) = Blocked -> _tts_done self = false)
             /\ (snd (run_pipeline pm p self) <> Blocked ->
                 exists t, acts = t ++ [HandleFinished])).
  { rewrite run_pipeline_spec. cbv zeta.
    destruct (pipeline_result pm p) as [[] | x].
    - destruct (_tts_done self) eqn:Hset; simpl orb.
      + eexists; split; [reflexivity|]. split; [discriminate|]. intros _.
        exists (Log "debug" "Starting pipeline" :: pipeline_actions pm p
                  ++ [Log "debug" "Pipeline finished"]).
        simpl. now rewrite <- ?app_assoc.
      + destruct (existsb is_set (pipeline_actions pm p)).
        * eexists; split; [reflexivity|]. split; [discriminate|]. intros _.
          exists (Log "debug" "Starting pipeline" :: pipeline_actions pm p
                    ++ [Log "debug" "Pipeline finished"]).
          simpl. now rewrite <- ?app_assoc.
        * eexists; split; [reflexivity|]. split; [reflexivity|].
          intros H; now destruct H.
    - destruct x; (eexists; split; [reflexivity|]); (split; [discriminate|]);
        intros _;
        first [ now exists (Log "debug" "Starting pipeline" :: pipeline_actions pm p)
              | eexists (Log "debug" "Starting pipeline" :: pipeline_actions pm p
                           ++ [_]);
                simpl; now rewrite <- ?app_assoc
              | eexists (Log "debug" "Starting pipeline" :: pipeline_actions pm p
                           ++ [_; _]);
                simpl; now rewrite <- ?app_assoc ]. }
  destruct Hshape as (acts & -> & Hb & He). split.
  - exists acts. apply trace_after.
  - intros Hset. rewrite tts_done_after, Hset. split; [reflexivity|].
    assert (Hnb : snd (run_pipeline pm p self) <> Blocked)
      by (intros H; apply Hb in H; congruence).
    split; [exact Hnb|].
    destruct (He Hnb) as (t & ->).
    rewrite trace_after, app_assoc. apply last_snoc.
Qed.

(** X23, an instance: a second run on the object of a run that ended with
    empty synthesis; this time synthesis has output, and the run returns
    without anything having set the signal again. *)
Lemma signal_is_never_cleared_witness :
  let first := fst (run_pipeline None (Emit (tts_end VNone) Return) init) in
  let second := Emit (tts_end (VDict [("url", VStr "/api/tts_proxy/reply.mp3")]))
                     Return in
  snd (run_pipeline None second first) <> Blocked.
Proof.
  intros first second.
  apply (proj2 (signal_is_never_cleared None second first)).
  reflexivity.
Defined.

(** X24.  [is_running] never becomes true: no run changes [started] or
    [stop_requested], and on a constructed object the property is false
    before and after every run. *)
Theorem is_running_stays_false :
  forall pm p (self : VoiceAssistantPipeline),
    is_running (fst (run_pipeline pm p self)) = is_running self
    /\ is_running (fst (run_pipeline pm p init)) = false.
Proof.
  assert (H : forall pm p self,
             is_running (fst (run_pipeline pm p self)) = is_running self).
  { intros pm p self. rewrite run_pipeline_spec. cbv zeta.
    destruct (pipeline_result pm p) as [[] | x];
      [destruct (_tts_done self || existsb is_set (pipeline_actions pm p))
      | destruct x]; reflexivity. }
  intros pm p self. split; [apply H | now rewrite H].
Qed.

End VoiceAssistantMore.

(** ** Further properties of the configuration flow *)

Module ConfigFlowMore.
Import Py ConfigFlow ConfigFlowFacts.

(** X25.  The first-run step never raises and never writes to the store of
    entries; it answers with its form (default ["raspberrypi"]) or asks for
    an entry whose title is the submitted host name and whose data is the
    submission. *)
Theorem async_step_user_result :
  forall (HOSTNAME : string) (user_input : option (gmap string string))
         (entries : gmap string (gmap string string)),
    fst (async_step_user HOSTNAME user_input entries) = entries
    /\ (snd (async_step_user HOSTNAME user_input entries)
        = Ok (ShowForm "user" "raspberrypi")
        \/ exists input h,
             user_input = Some input /\ input !! HOSTNAME = Some h
             /\ snd (async_step_user HOSTNAME user_input entries)
                = Ok (CreateEntry h input)).
Proof.
  intros HOSTNAME [input|] entries; [|split; [reflexivity | now left]].
  unfold async_step_user, try_except, bind, lift, input_subscript,
    _async_abort_entries_match.
  destruct (input !! HOSTNAME) as [h|] eqn:Hin;
    [|split; [reflexivity | now left]].
  destruct (decide _); simpl; (split; [reflexivity|]); [now left|].
  right. exists input, h. now rewrite Hin.
Qed.

(** X26.  A submission whose host name no entry has yet is accepted: the
    step asks for an entry titled with the host name and holding the
    submitted data. *)
Theorem async_step_user_accepts_new_hostname :
  forall (HOSTNAME : string) (input : gmap string string) (h : string)
         (entries : gmap string (gmap string string)),
    input !! HOSTNAME = Some h ->
    (forall i d, entries !! i = Some d -> d !! HOSTNAME <> Some h) ->
    async_step_user HOSTNAME (Some input) entries
    = (entries, Ok (CreateEntry h input)).
Proof.
  intros HOSTNAME input h entries Hin Hnew.
  unfold async_step_user, try_except, bind, lift, input_subscript,
    _async_abort_entries_match.
  rewrite Hin. destruct (decide _) as [Hex|]; [|reflexivity].
  exfalso. destruct Hex as (i & d & Hi & Hall).
  apply (Hnew i d Hi). apply (Hall HOSTNAME h). apply lookup_singleton_eq.
Qed.

(** X26, an instance: the first entry. *)
Lemma async_step_user_accepts_new_hostname_witness :
  async_step_user "hostname" (Some {[ "hostname" := "raspberrypi" ]}) ∅
  = (∅, Ok (CreateEntry "raspberrypi" {[ "hostname" := "raspberrypi" ]})).
Proof.
  apply async_step_user_accepts_new_hostname.
  - apply lookup_singleton_eq.
  - intros i d Hi. rewrite lookup_empty in Hi. discriminate Hi.
Defined.

(** X27.  Entries created through the first-run step keep host names
    distinct: if no two entries name the same host before the step, none do
    after the flow manager has acted on its result. *)
Theorem first_run_keeps_hostnames_distinct :
  forall (HOSTNAME : string) (entries : gmap string (gmap string string))
         (user_input : option (gmap string string)) (new_id : string),
    entries !! new_id = None ->
    hostnames_distinct HOSTNAME entries ->
    hostnames_distinct HOSTNAME
      (finish_flow new_id (snd (async_step_user HOSTNAME user_input entries))
                   (fst (async_step_user HOSTNAME user_input entries))).
Proof.
  intros HOSTNAME entries user_input new_id.
  apply async_step_user_keeps_hostnames_distinct.
Qed.

(** X27, an instance: a second host is added. *)
Lemma first_run_keeps_hostnames_distinct_witness :
  hostnames_distinct "hostname"
    (finish_flow "entry-2"
       (snd (async_step_user "hostname" (Some {[ "hostname" := "kitchen" ]})
               {[ "entry-1" := {[ "hostname" := "raspberrypi" ]} ]}))
       (fst (async_step_user "hostname" (Some {[ "hostname" := "kitchen" ]})
               {[ "entry-1" := {[ "hostname" := "raspberrypi" ]} ]}))).
Proof.
  apply first_run_keeps_hostnames_distinct.
  - now rewrite lookup_singleton_ne.
  - intros i j di dj h Hi Hj _ _.
    apply lookup_singleton_Some in Hi as [<- _].
    apply lookup_singleton_Some in Hj as [<- _]. reflexivity.
Defined.

(** X28.  The reconfigure step writes to the entry it was started for and to
    no other, whatever is submitted and whatever the reload does. *)
Theorem reconfigure_touches_one_entry :
  forall (HOSTNAME : string) (reload_raises : option exn)
         (entry_id other : string) (user_input : option (gmap string string))
         (entries : gmap string (gmap string string)),
    other <> entry_id ->
    fst (async_step_reconfigure HOSTNAME reload_raises entry_id user_input
           entries) !! other
    = entries !! other.
Proof.
  intros HOSTNAME reload_raises entry_id other user_input entries Hne.
  unfold async_step_reconfigure, bind, gets, try_except, async_update_entry,
    async_reload, modify.
  destruct (entries !! entry_id) as [old|]; [|reflexivity].
  destruct user_input as [input|]; [|reflexivity].
  destruct reload_raises; simpl; now rewrite lookup_insert_ne.
Qed.

(** X28, an instance. *)
Lemma reconfigure_touches_one_entry_witness :
  fst (async_step_reconfigure "hostname" None "entry-2"
         (Some {[ "hostname" := "attic" ]})
         {[ "entry-1" := {[ "hostname" := "raspberrypi" ]};
            "entry-2" := {[ "hostname" := "kitchen" ]} ]}) !! "entry-1"
  = Some {[ "hostname" := "raspberrypi" ]}.
Proof.
  rewrite (reconfigure_touches_one_entry "hostname" None "entry-2" "entry-1")
    by discriminate.
  apply lookup_insert_eq.
Defined.

(** X29.  When the reload after a reconfiguration raises, the submitted data
    is stored all the same: the step shows its form again, pre-filled with
    the host name the entry had before, and the entry keeps the new data. *)
Theorem reconfigure_keeps_data_when_reload_fails :
  forall (HOSTNAME : string) (x : exn) (entry_id : string)
         (old_data input : gmap string string)
         (entries : gmap string (gmap string string)),
    entries !! entry_id = Some old_data ->
    async_step_reconfigure HOSTNAME (Some x) entry_id (Some input) entries
    = (<[entry_id := input]> entries,
       Ok (ShowForm "reconfigure"
             (default "raspberrypi" (old_data !! HOSTNAME)))).
Proof.
  intros HOSTNAME x entry_id old_data input entries Hentry.
  unfold async_step_reconfigure, bind, gets. rewrite Hentry. reflexivity.
Qed.

(** X29, an instance. *)
Lemma reconfigure_keeps_data_when_reload_fails_witness :
  fst (async_step_reconfigure "hostname" (Some (OtherError "ConfigEntryNotReady"))
         "entry-1" (Some {[ "hostname" := "attic" ]})
         {[ "entry-1" := {[ "hostname" := "raspberrypi" ]} ]}) !! "entry-1"
  = Some {[ "hostname" := "attic" ]}.
Proof.
  rewrite (reconfigure_keeps_data_when_reload_fails "hostname" _ "entry-1"
             {[ "hostname" := "raspberrypi" ]}) by apply lookup_singleton_eq.
  apply lookup_insert_eq.
Defined.

End ConfigFlowMore.
